(** * Time Zone Scheduler: the ownership-scoped schedule actions

    A shallow embedding of [src/db/tables.ts] (the three tables) and of the
    nine actions of the server module (createSchedule ... deleteSuggestion),
    with the theorems that settle the claims of the specification.

    Modelling choices.
    - A table is the list of its rows in storage order; a query result is the
      sub-list of matching rows in that order, so [rows[0]] is [hd_error].
    - A [Date] is its time value (milliseconds since the epoch), an integer;
      JavaScript compares dates with [<] through that value.
    - [new Date()] and [crypto.randomUUID()] read the environment: the world
      carries the sequence of readings each of them will give.
    - An [await]ed statement runs to completion before the next one starts;
      nothing is wrapped in a transaction, so what was written before a
      [throw] stays written.
    - Every statement sent to the store is recorded in the world's [trace].
    - [db] of [astro:db] is a Drizzle query builder. In [.values({...})] a
      key whose value is [undefined] is stored as NULL (the columns concerned
      have no default); in [.set({...})] such a key is dropped from the UPDATE
      statement, so the column keeps its value. An optional column is an
      [option]: [None] is both [undefined] in an input and NULL in a row. *)

From Stdlib Require Import List String ZArith QArith Bool Lia.
Import ListNotations.
Open Scope string_scope.
Open Scope Z_scope.

Set Implicit Arguments.

(** ** Values *)

Definition Date := Z.

(** JavaScript truthiness of a [string | undefined]: [undefined] and the
    empty string are falsy, every other string is truthy. *)
Definition truthy (o : option string) : bool :=
  match o with
  | Some s => negb (s =? "")%string
  | None => false
  end.

(** [value !== undefined]. *)
Definition defined {A : Type} (o : option A) : bool :=
  match o with
  | Some _ => true
  | None => false
  end.

(** ** What the client hands back

    The rows of a select reach the handler through the libSQL client of
    [astro:db], which decodes each column: a text comes back cut at its first
    NUL character, and an integer comes back as a number only when it is a
    safe integer (strictly between -2^53 and 2^53); for any other stored
    integer the client throws RangeError and the select fails. *)

Fixpoint read_text (s : string) : string :=
  match s with
  | EmptyString => EmptyString
  | String c rest =>
      if Ascii.eqb c Ascii.zero then EmptyString else String c (read_text rest)
  end.

Definition read_integer (n : Z) : option Z :=
  if (- 2 ^ 53 <? n) && (n <? 2 ^ 53) then Some n else None.

Definition read_optional_text (o : option string) : option string :=
  match o with
  | Some s => Some (read_text s)
  | None => None
  end.

(** [None] when the client throws. *)
Definition read_optional_integer (o : option Z) : option (option Z) :=
  match o with
  | Some n => match read_integer n with Some k => Some (Some k) | None => None end
  | None => Some None
  end.

(** ** Tables (src/db/tables.ts) *)

Module Schedules.
Record row : Type := mk {
  id : string;
  ownerUserId : string;
  name : string;
  description : option string;
  baseTimeZone : option string;
  durationMinutes : option Z;
  createdAt : Date;
  updatedAt : Date
}.

(** The argument of [.set(...)], with the keys the actions use: [None] is a
    key that is missing or whose value is [undefined]; the query builder
    leaves it out of the UPDATE statement and the column keeps its value. *)
Record partial : Type := mkPartial {
  set_name : option string;
  set_description : option string;
  set_baseTimeZone : option string;
  set_durationMinutes : option Z;
  set_updatedAt : option Date
}.

Definition set (p : partial) (r : row) : row :=
  mk (id r)
     (ownerUserId r)
     (match set_name p with Some v => v | None => name r end)
     (match set_description p with Some v => Some v | None => description r end)
     (match set_baseTimeZone p with Some v => Some v | None => baseTimeZone r end)
     (match set_durationMinutes p with Some v => Some v | None => durationMinutes r end)
     (createdAt r)
     (match set_updatedAt p with Some v => v | None => updatedAt r end).

(** The row as the client hands it back; [None] when it throws. *)
Definition read_back (r : row) : option row :=
  match read_optional_integer (durationMinutes r) with
  | Some duration =>
      Some (mk (read_text (id r)) (read_text (ownerUserId r)) (read_text (name r))
              (read_optional_text (description r)) (read_optional_text (baseTimeZone r))
              duration (createdAt r) (updatedAt r))
  | None => None
  end.

(** The client hands the row back as it is stored. *)
Definition readable (r : row) : Prop := read_back r = Some r.
End Schedules.

Module ScheduleParticipants.
Record row : Type := mk {
  id : string;
  scheduleId : string;
  name : string;
  timeZone : string;
  availabilityJson : option string;
  createdAt : Date
}.

Record partial : Type := mkPartial {
  set_name : option string;
  set_timeZone : option string;
  set_availabilityJson : option string
}.

Definition set (p : partial) (r : row) : row :=
  mk (id r)
     (scheduleId r)
     (match set_name p with Some v => v | None => name r end)
     (match set_timeZone p with Some v => v | None => timeZone r end)
     (match set_availabilityJson p with Some v => Some v | None => availabilityJson r end)
     (createdAt r).

(** The row as the client hands it back (no column of this table can make
    it throw). *)
Definition read_back (r : row) : option row :=
  Some (mk (read_text (id r)) (read_text (scheduleId r)) (read_text (name r))
          (read_text (timeZone r)) (read_optional_text (availabilityJson r))
          (createdAt r)).

Definition readable (r : row) : Prop := read_back r = Some r.
End ScheduleParticipants.

Module ScheduleSuggestions.
Record row : Type := mk {
  id : string;
  scheduleId : string;
  suggestedStartUtc : Date;
  suggestedEndUtc : Date;
  participantsJson : option string;
  score : option Z;
  notes : option string;
  createdAt : Date
}.

Record partial : Type := mkPartial {
  set_suggestedStartUtc : option Date;
  set_suggestedEndUtc : option Date;
  set_participantsJson : option string;
  set_score : option Z;
  set_notes : option string
}.

Definition set (p : partial) (r : row) : row :=
  mk (id r)
     (scheduleId r)
     (match set_suggestedStartUtc p with Some v => v | None => suggestedStartUtc r end)
     (match set_suggestedEndUtc p with Some v => v | None => suggestedEndUtc r end)
     (match set_participantsJson p with Some v => Some v | None => participantsJson r end)
     (match set_score p with Some v => Some v | None => score r end)
     (match set_notes p with Some v => Some v | None => notes r end)
     (createdAt r).

(** The row as the client hands it back; [None] when it throws. *)
Definition read_back (r : row) : option row :=
  match read_optional_integer (score r) with
  | Some sc =>
      Some (mk (read_text (id r)) (read_text (scheduleId r)) (suggestedStartUtc r)
              (suggestedEndUtc r) (read_optional_text (participantsJson r)) sc
              (read_optional_text (notes r)) (createdAt r))
  | None => None
  end.

Definition readable (r : row) : Prop := read_back r = Some r.
End ScheduleSuggestions.

Record Db : Type := mkDb {
  schedules : list Schedules.row;
  participants : list ScheduleParticipants.row;
  suggestions : list ScheduleSuggestions.row
}.

(** ** The store interface the actions use *)

Inductive TableName : Type := TSchedules | TScheduleParticipants | TScheduleSuggestions.
Inductive Verb : Type := SELECT | COUNT | INSERT | UPDATE | DELETE.
Definition Stmt : Type := (Verb * TableName)%type.

(** A table handle: where its rows live in the database and its primary key. *)
Record Table (R : Type) : Type := mkTable {
  tname : TableName;
  stored : Db -> list R;
  put : list R -> Db -> Db;
  pk : R -> string
}.

Definition SchedulesT : Table Schedules.row :=
  mkTable TSchedules schedules
    (fun l d => mkDb l (participants d) (suggestions d)) Schedules.id.

Definition ScheduleParticipantsT : Table ScheduleParticipants.row :=
  mkTable TScheduleParticipants participants
    (fun l d => mkDb (schedules d) l (suggestions d)) ScheduleParticipants.id.

Definition ScheduleSuggestionsT : Table ScheduleSuggestions.row :=
  mkTable TScheduleSuggestions suggestions
    (fun l d => mkDb (schedules d) (participants d) l) ScheduleSuggestions.id.

(** The filters of the source: [eq(column, value)] on a text column and
    [and(..., ...)]. *)
Inductive cond (R : Type) : Type :=
| Eq (column : R -> string) (value : string)
| And (a b : cond R).

Fixpoint holds {R : Type} (c : cond R) (r : R) : bool :=
  match c with
  | Eq column value => (column r =? value)%string
  | And a b => holds a r && holds b r
  end.

(** ** The world and the action monad *)

Record World : Type := mkWorld {
  db : Db;
  trace : list Stmt;        (* statements sent to the store, oldest first *)
  dates : nat -> Date;      (* what the n-th [new Date()] returns *)
  tick : nat;               (* how many [new Date()] have been made *)
  uuids : nat -> string;    (* what the n-th [crypto.randomUUID()] returns *)
  drawn : nat               (* how many ids have been drawn *)
}.

Inductive ErrorCode : Type := UNAUTHORIZED | NOT_FOUND.

Inductive Result (A : Type) : Type :=
| Ok (a : A)
| ActionError (code : ErrorCode) (message : string)  (* thrown by a handler *)
| InputError                                         (* the input schema rejected the input *)
| StoreError                                         (* the store refused a statement *)
| TypeError.                                         (* thrown by the JavaScript runtime *)

Arguments Ok {A} a.
Arguments ActionError {A} code message.
Arguments InputError {A}.
Arguments StoreError {A}.
Arguments TypeError {A}.

Definition M (A : Type) : Type := World -> Result A * World.

Definition ret {A : Type} (a : A) : M A := fun w => (Ok a, w).

Definition throw {A : Type} (code : ErrorCode) (message : string) : M A :=
  fun w => (ActionError code message, w).

Definition bind {A B : Type} (m : M A) (k : A -> M B) : M B :=
  fun w =>
    match m w with
    | (Ok a, w') => k a w'
    | (ActionError code message, w') => (ActionError code message, w')
    | (InputError, w') => (InputError, w')
    | (StoreError, w') => (StoreError, w')
    | (TypeError, w') => (TypeError, w')
    end.

Declare Scope action_scope.
Delimit Scope action_scope with action.
Notation "x <- m ;; k" := (bind m (fun x => k))
  (at level 100, m at next level, right associativity) : action_scope.
Notation "m ;;; k" := (bind m (fun _ => k))
  (at level 100, right associativity) : action_scope.
Open Scope action_scope.

Definition new_Date : M Date :=
  fun w => (Ok (dates w (tick w)),
            mkWorld (db w) (trace w) (dates w) (S (tick w)) (uuids w) (drawn w)).

Definition randomUUID : M string :=
  fun w => (Ok (uuids w (drawn w)),
            mkWorld (db w) (trace w) (dates w) (tick w) (uuids w) (S (drawn w))).

(** A statement reaches the store: it is logged and the database replaced. *)
Definition sent (st : Stmt) (d : Db) (w : World) : World :=
  mkWorld d (trace w ++ [st]) (dates w) (tick w) (uuids w) (drawn w).

(** [db.select().from(T).where(c)] hands the matching rows over as they are
    stored. That is what the handler receives when the rows are [readable];
    the theorems on what a read returns assume so. *)
Definition db_select {R : Type} (T : Table R) (c : cond R) : M (list R) :=
  fun w => (Ok (filter (holds c) (stored T (db w))), sent (SELECT, tname T) (db w) w).

Definition db_select_page {R : Type} (T : Table R) (c : cond R) (offset limit : Z)
  : M (list R) :=
  fun w => (Ok (firstn (Z.to_nat limit)
                  (skipn (Z.to_nat offset) (filter (holds c) (stored T (db w))))),
            sent (SELECT, tname T) (db w) w).

(** [db.select({ count: db.fn.count() }).from(T).where(c)]. The query builder
    [db] of [astro:db] has no [fn] property: the argument [db.fn.count()]
    reads [count] of [undefined], and the runtime throws TypeError while the
    argument is evaluated, before a select is built or sent. *)
Definition db_select_count {R : Type} (T : Table R) (c : cond R) : M (list nat) :=
  fun w => (TypeError, w).

(** [id] is the primary key of every table: the store refuses a second row
    with a key it already holds. *)
Definition db_insert {R : Type} (T : Table R) (r : R) : M unit :=
  fun w =>
    if existsb (fun r' => (pk T r' =? pk T r)%string) (stored T (db w))
    then (StoreError, sent (INSERT, tname T) (db w) w)
    else (Ok tt, sent (INSERT, tname T) (put T (stored T (db w) ++ [r]) (db w)) w).

Definition db_update {R : Type} (T : Table R) (set : R -> R) (c : cond R) : M unit :=
  fun w =>
    (Ok tt,
     sent (UPDATE, tname T)
       (put T (map (fun r => if holds c r then set r else r) (stored T (db w))) (db w)) w).

Definition db_delete {R : Type} (T : Table R) (c : cond R) : M unit :=
  fun w =>
    (Ok tt,
     sent (DELETE, tname T)
       (put T (filter (fun r => negb (holds c r)) (stored T (db w))) (db w)) w).

(** ** Request context and input schemas *)

Record User : Type := mkUser { user_id : string }.
Record Locals : Type := mkLocals { user : option User }.
Record Context : Type := mkContext { locals : option Locals }.

(** A JavaScript number that is not NaN or infinite, as a rational. *)
Definition number : Type := Q.

(** [z.number().int()]: the integer the number is, if it is one. *)
Definition z_int (n : number) : option Z :=
  if (Qden (Qred n) =? 1)%positive then Some (Qnum (Qred n)) else None.

(** [z.number().int().positive()]. *)
Definition z_int_positive (n : number) : option Z :=
  match z_int n with
  | Some k => if 0 <? k then Some k else None
  | None => None
  end.

(** [z.string().min(1)]. *)
Definition z_string_min1 (s : string) : option string :=
  if (s =? "")%string then None else Some s.

(** What [new Date(x)] gives for the raw value [x]: a date, or Invalid Date,
    which [z.coerce.date()] rejects. *)
Inductive JsDate : Type := ValidDate (time : Z) | InvalidDate.

Definition z_coerce_date (d : JsDate) : option Date :=
  match d with
  | ValidDate time => Some time
  | InvalidDate => None
  end.

(** [schema.optional()]: [undefined] passes, anything else goes to [schema]. *)
Definition z_optional {A B : Type} (schema : A -> option B) (o : option A)
  : option (option B) :=
  match o with
  | None => Some None
  | Some a => match schema a with Some b => Some (Some b) | None => None end
  end.

(** [defineAction({ input, handler })]: the handler runs only on an input the
    schema accepted. *)
Definition defineAction {Raw In Out : Type}
    (input : Raw -> option In) (handler : In -> Context -> M Out)
  : Raw -> Context -> M Out :=
  fun raw context =>
    match input raw with
    | Some i => handler i context
    | None => fun w => (InputError, w)
    end.

(** ** Helpers of the server module *)

Definition requireUser (context : Context) : M User :=
  match locals context with
  | Some l =>
      match user l with
      | Some u => ret u
      | None => throw UNAUTHORIZED "You must be signed in to perform this action."
      end
  | None => throw UNAUTHORIZED "You must be signed in to perform this action."
  end.

Definition owned (scheduleId userId : string) : cond Schedules.row :=
  And (Eq Schedules.id scheduleId) (Eq Schedules.ownerUserId userId).

Definition getOwnedSchedule (scheduleId userId : string) : M Schedules.row :=
  rows <- db_select SchedulesT (owned scheduleId userId) ;;
  match hd_error rows with
  | Some schedule => ret schedule
  | None => throw NOT_FOUND "Schedule not found."
  end.

Definition touchScheduleUpdatedAt (scheduleId : string) : M unit :=
  now <- new_Date ;;
  db_update SchedulesT
    (Schedules.set (Schedules.mkPartial None None None None (Some now)))
    (Eq Schedules.id scheduleId).

(** ** The actions of [server] *)

Module CreateSchedule.
(** The object shape of the schema; [N] is the type of its number. *)
Record shape (N : Type) : Type := mk {
  name : string;
  description : option string;
  baseTimeZone : option string;
  durationMinutes : option N
}.

Definition input (r : shape number) : option (shape Z) :=
  match z_string_min1 (name r),
        z_optional z_string_min1 (baseTimeZone r),
        z_optional z_int_positive (durationMinutes r) with
  | Some n, Some tz, Some d => Some (mk n (description r) tz d)
  | _, _, _ => None
  end.

Definition handler (input : shape Z) (context : Context) : M Schedules.row :=
  user <- requireUser context ;;
  now <- new_Date ;;
  uuid <- randomUUID ;;
  let schedule :=
    Schedules.mk uuid (user_id user) (name input) (description input)
      (baseTimeZone input) (durationMinutes input) now now in
  db_insert SchedulesT schedule ;;;
  ret schedule.
End CreateSchedule.

Module UpdateSchedule.
Record shape (N : Type) : Type := mk {
  id : string;
  name : option string;
  description : option string;
  baseTimeZone : option string;
  durationMinutes : option N
}.

Definition refine (value : shape Z) : bool :=
  defined (name value) || defined (description value)
  || defined (baseTimeZone value) || defined (durationMinutes value).

Definition input (r : shape number) : option (shape Z) :=
  match z_string_min1 (id r),
        z_optional z_string_min1 (name r),
        z_optional z_string_min1 (baseTimeZone r),
        z_optional z_int_positive (durationMinutes r) with
  | Some i, Some n, Some tz, Some d =>
      let value := mk i n (description r) tz d in
      if refine value then Some value else None
  | _, _, _, _ => None
  end.

(** [updateData]: [updatedAt] always, the other keys only when the input
    has them. *)
Definition updateData (input : shape Z) (now : Date) : Schedules.partial :=
  Schedules.mkPartial (name input) (description input) (baseTimeZone input)
    (durationMinutes input) (Some now).

Definition handler (input : shape Z) (context : Context)
  : M (option Schedules.row) :=
  user <- requireUser context ;;
  getOwnedSchedule (id input) (user_id user) ;;;
  now <- new_Date ;;
  db_update SchedulesT (Schedules.set (updateData input now))
    (owned (id input) (user_id user)) ;;;
  updated <- db_select SchedulesT (owned (id input) (user_id user)) ;;
  ret (hd_error updated).
End UpdateSchedule.

Module DeleteSchedule.
Record shape : Type := mk { id : string }.

Definition input (r : shape) : option shape :=
  match z_string_min1 (id r) with
  | Some i => Some (mk i)
  | None => None
  end.

Definition handler (input : shape) (context : Context) : M unit :=
  user <- requireUser context ;;
  getOwnedSchedule (id input) (user_id user) ;;;
  db_delete ScheduleSuggestionsT (Eq ScheduleSuggestions.scheduleId (id input)) ;;;
  db_delete ScheduleParticipantsT (Eq ScheduleParticipants.scheduleId (id input)) ;;;
  db_delete SchedulesT (owned (id input) (user_id user)) ;;;
  ret tt.
End DeleteSchedule.

Module ListMySchedules.
Record shape (A : Type) : Type := mk { page : A; pageSize : A }.

Record data : Type := mkData {
  items : list Schedules.row;
  total : nat;
  data_page : Z;
  data_pageSize : Z
}.

Definition input (r : shape (option number)) : option (shape Z) :=
  match match page r with
        | None => Some 1
        | Some n => z_int_positive n
        end,
        match pageSize r with
        | None => Some 20
        | Some n =>
            match z_int_positive n with
            | Some k => if k <=? 100 then Some k else None
            | None => None
            end
        end with
  | Some p, Some ps => Some (mk p ps)
  | _, _ => None
  end.

Definition handler (input : shape Z) (context : Context) : M data :=
  user <- requireUser context ;;
  let offset := (page input - 1) * pageSize input in
  items <- db_select_page SchedulesT (Eq Schedules.ownerUserId (user_id user))
             offset (pageSize input) ;;
  totalResult <- db_select_count SchedulesT (Eq Schedules.ownerUserId (user_id user)) ;;
  let total := match hd_error totalResult with Some count => count | None => 0%nat end in
  ret (mkData items total (page input) (pageSize input)).
End ListMySchedules.

Module GetScheduleWithDetails.
Record shape : Type := mk { id : string }.

Record data : Type := mkData {
  schedule : Schedules.row;
  participants : list ScheduleParticipants.row;
  suggestions : list ScheduleSuggestions.row
}.

Definition input (r : shape) : option shape :=
  match z_string_min1 (id r) with
  | Some i => Some (mk i)
  | None => None
  end.

(** The two child reads of [Promise.all] do not depend on each other; they
    are taken in the order they are written. *)
Definition handler (input : shape) (context : Context) : M data :=
  user <- requireUser context ;;
  schedule <- getOwnedSchedule (id input) (user_id user) ;;
  participants <- db_select ScheduleParticipantsT
                    (Eq ScheduleParticipants.scheduleId (Schedules.id schedule)) ;;
  suggestions <- db_select ScheduleSuggestionsT
                   (Eq ScheduleSuggestions.scheduleId (Schedules.id schedule)) ;;
  ret (mkData schedule participants suggestions).
End GetScheduleWithDetails.

Definition child_of {R : Type} (id scheduleId : R -> string) (i s : string) : cond R :=
  And (Eq id i) (Eq scheduleId s).

Module UpsertParticipant.
Record shape : Type := mk {
  id : option string;
  scheduleId : string;
  name : string;
  timeZone : string;
  availabilityJson : option string
}.

Definition input (r : shape) : option shape :=
  match z_string_min1 (scheduleId r),
        z_string_min1 (name r),
        z_string_min1 (timeZone r) with
  | Some s, Some n, Some tz => Some (mk (id r) s n tz (availabilityJson r))
  | _, _, _ => None
  end.

Definition handler (input : shape) (context : Context)
  : M (list ScheduleParticipants.row) :=
  user <- requireUser context ;;
  getOwnedSchedule (scheduleId input) (user_id user) ;;;
  (if truthy (id input) then
     let input_id := match id input with Some i => i | None => "" end in
     existing <- db_select ScheduleParticipantsT
                   (child_of ScheduleParticipants.id ScheduleParticipants.scheduleId
                      input_id (scheduleId input)) ;;
     match hd_error existing with
     | None => throw NOT_FOUND "Participant not found for this schedule."
     | Some _ =>
         db_update ScheduleParticipantsT
           (ScheduleParticipants.set
              (ScheduleParticipants.mkPartial (Some (name input))
                 (Some (timeZone input)) (availabilityJson input)))
           (child_of ScheduleParticipants.id ScheduleParticipants.scheduleId
              input_id (scheduleId input))
     end
   else
     uuid <- randomUUID ;;
     now <- new_Date ;;
     db_insert ScheduleParticipantsT
       (ScheduleParticipants.mk uuid (scheduleId input) (name input)
          (timeZone input) (availabilityJson input) now)) ;;;
  touchScheduleUpdatedAt (scheduleId input) ;;;
  db_select ScheduleParticipantsT
    (Eq ScheduleParticipants.scheduleId (scheduleId input)).
End UpsertParticipant.

Module DeleteParticipant.
Record shape : Type := mk { scheduleId : string; participantId : string }.

Definition input (r : shape) : option shape :=
  match z_string_min1 (scheduleId r), z_string_min1 (participantId r) with
  | Some s, Some p => Some (mk s p)
  | _, _ => None
  end.

Definition handler (input : shape) (context : Context) : M unit :=
  user <- requireUser context ;;
  getOwnedSchedule (scheduleId input) (user_id user) ;;;
  participant <- db_select ScheduleParticipantsT
                   (child_of ScheduleParticipants.id ScheduleParticipants.scheduleId
                      (participantId input) (scheduleId input)) ;;
  match hd_error participant with
  | None => throw NOT_FOUND "Participant not found for this schedule."
  | Some _ =>
      db_delete ScheduleParticipantsT
        (child_of ScheduleParticipants.id ScheduleParticipants.scheduleId
           (participantId input) (scheduleId input)) ;;;
      touchScheduleUpdatedAt (scheduleId input) ;;;
      ret tt
  end.
End DeleteParticipant.

Module UpsertSuggestion.
(** [D] is the type of the two dates, [N] of the score. *)
Record shape (D N : Type) : Type := mk {
  id : option string;
  scheduleId : string;
  suggestedStartUtc : D;
  suggestedEndUtc : D;
  participantsJson : option string;
  score : option N;
  notes : option string
}.

(** [z.number().int().min(0).max(100)]. *)
Definition z_score (n : number) : option Z :=
  match z_int n with
  | Some k => if (0 <=? k) && (k <=? 100) then Some k else None
  | None => None
  end.

Definition refine (value : shape Date Z) : bool :=
  suggestedStartUtc value <? suggestedEndUtc value.

Definition input (r : shape JsDate number) : option (shape Date Z) :=
  match z_string_min1 (scheduleId r),
        z_coerce_date (suggestedStartUtc r),
        z_coerce_date (suggestedEndUtc r),
        z_optional z_score (score r) with
  | Some s, Some t0, Some t1, Some sc =>
      let value := mk (id r) s t0 t1 (participantsJson r) sc (notes r) in
      if refine value then Some value else None
  | _, _, _, _ => None
  end.

Definition handler (input : shape Date Z) (context : Context)
  : M (list ScheduleSuggestions.row) :=
  user <- requireUser context ;;
  getOwnedSchedule (scheduleId input) (user_id user) ;;;
  (if truthy (id input) then
     let input_id := match id input with Some i => i | None => "" end in
     existing <- db_select ScheduleSuggestionsT
                   (child_of ScheduleSuggestions.id ScheduleSuggestions.scheduleId
                      input_id (scheduleId input)) ;;
     match hd_error existing with
     | None => throw NOT_FOUND "Suggestion not found for this schedule."
     | Some _ =>
         db_update ScheduleSuggestionsT
           (ScheduleSuggestions.set
              (ScheduleSuggestions.mkPartial (Some (suggestedStartUtc input))
                 (Some (suggestedEndUtc input)) (participantsJson input)
                 (score input) (notes input)))
           (child_of ScheduleSuggestions.id ScheduleSuggestions.scheduleId
              input_id (scheduleId input))
     end
   else
     uuid <- randomUUID ;;
     now <- new_Date ;;
     db_insert ScheduleSuggestionsT
       (ScheduleSuggestions.mk uuid (scheduleId input) (suggestedStartUtc input)
          (suggestedEndUtc input) (participantsJson input) (score input)
          (notes input) now)) ;;;
  touchScheduleUpdatedAt (scheduleId input) ;;;
  db_select ScheduleSuggestionsT
    (Eq ScheduleSuggestions.scheduleId (scheduleId input)).
End UpsertSuggestion.

Module DeleteSuggestion.
Record shape : Type := mk { scheduleId : string; suggestionId : string }.

Definition input (r : shape) : option shape :=
  match z_string_min1 (scheduleId r), z_string_min1 (suggestionId r) with
  | Some s, Some g => Some (mk s g)
  | _, _ => None
  end.

Definition handler (input : shape) (context : Context) : M unit :=
  user <- requireUser context ;;
  getOwnedSchedule (scheduleId input) (user_id user) ;;;
  suggestion <- db_select ScheduleSuggestionsT
                  (child_of ScheduleSuggestions.id ScheduleSuggestions.scheduleId
                     (suggestionId input) (scheduleId input)) ;;
  match hd_error suggestion with
  | None => throw NOT_FOUND "Suggestion not found for this schedule."
  | Some _ =>
      db_delete ScheduleSuggestionsT
        (child_of ScheduleSuggestions.id ScheduleSuggestions.scheduleId
           (suggestionId input) (scheduleId input)) ;;;
      touchScheduleUpdatedAt (scheduleId input) ;;;
      ret tt
  end.
End DeleteSuggestion.

Definition createSchedule := defineAction CreateSchedule.input CreateSchedule.handler.
Definition updateSchedule := defineAction UpdateSchedule.input UpdateSchedule.handler.
Definition deleteSchedule := defineAction DeleteSchedule.input DeleteSchedule.handler.
Definition listMySchedules := defineAction ListMySchedules.input ListMySchedules.handler.
Definition getScheduleWithDetails :=
  defineAction GetScheduleWithDetails.input GetScheduleWithDetails.handler.
Definition upsertParticipant :=
  defineAction UpsertParticipant.input UpsertParticipant.handler.
Definition deleteParticipant :=
  defineAction DeleteParticipant.input DeleteParticipant.handler.
Definition upsertSuggestion := defineAction UpsertSuggestion.input UpsertSuggestion.handler.
Definition deleteSuggestion := defineAction DeleteSuggestion.input DeleteSuggestion.handler.

(** ** Invariants and sample worlds *)

(** The primary key of a table is unique among its rows. *)
Definition unique_keys {R : Type} (T : Table R) (d : Db) : Prop :=
  NoDup (map (pk T) (stored T d)).

Definition wf (d : Db) : Prop :=
  unique_keys SchedulesT d
  /\ unique_keys ScheduleParticipantsT d
  /\ unique_keys ScheduleSuggestionsT d.

Definition signed_in (userId : string) : Context :=
  mkContext (Some (mkLocals (Some (mkUser userId)))).

(** The outcome of a call without its world. *)
Definition result_of {A : Type} (m : M A) (w : World) : Result A := fst (m w).
Definition world_after {A : Type} (m : M A) (w : World) : World := snd (m w).

(** The call fails at the ownership guard in [w], exactly as it does in [w0],
    and writes nothing. *)
Definition hidden_from {A : Type} (m : M A) (w w0 : World) : Prop :=
  result_of m w = ActionError NOT_FOUND "Schedule not found."
  /\ result_of m w0 = result_of m w
  /\ db (world_after m w) = db w.

Module Sample.
Definition team_sync : Schedules.row :=
  Schedules.mk "s1" "alice" "Team sync" None (Some "Asia/Dubai") (Some 30) 1000 1000.
Definition client_call : Schedules.row :=
  Schedules.mk "s2" "alice" "Client call" (Some "weekly") None None 1500 1500.
Definition karthik : ScheduleParticipants.row :=
  ScheduleParticipants.mk "p1" "s1" "Karthik" "Asia/Dubai" (Some "{}") 1100.
Definition astra : ScheduleParticipants.row :=
  ScheduleParticipants.mk "p2" "s2" "Astra" "America/New_York" None 1600.
Definition morning : ScheduleSuggestions.row :=
  ScheduleSuggestions.mk "g1" "s1" 5000 8600 (Some "[1]") (Some 80) (Some "ok") 1200.
Definition evening : ScheduleSuggestions.row :=
  ScheduleSuggestions.mk "g2" "s2" 9000 9900 None None None 1700.

Definition database : Db :=
  mkDb [team_sync; client_call] [karthik; astra] [morning; evening].

(** A clock that advances by one millisecond per reading from 2000, and ids
    that differ from the stored ones. *)
Definition world : World :=
  mkWorld database [] (fun n => 2000 + Z.of_nat n) 0
    (fun n => match n with O => "u0" | S O => "u1" | _ => "u2" end) 0.

(** The same world with a clock stuck at the millisecond 1000. *)
Definition frozen : World :=
  mkWorld database [] (fun _ => 1000) 0 (fun _ => "u0") 0.

(** A world where alice owns 25 schedules, with the ids "a" to "y". *)
Definition busy : World :=
  mkWorld
    (mkDb (map (fun n => Schedules.mk (String (Ascii.ascii_of_nat (97 + n)) "") "alice"
                           "Sync" None None None 1000 1000)
             (seq 0 25)) [] [])
    [] (fun n => 2000 + Z.of_nat n) 0 (fun _ => "u0") 0.

(** A world whose store is empty. *)
Definition empty : World :=
  mkWorld (mkDb [] [] []) [] (fun n => 2000 + Z.of_nat n) 0 (fun _ => "u0") 0.
End Sample.

(** ** What each path of the child actions leaves behind *)

(** The rows of the schedules table after [touchScheduleUpdatedAt]. *)
Definition touched (scheduleId : string) (now : Date) (l : list Schedules.row)
  : list Schedules.row :=
  map (fun r => if (Schedules.id r =? scheduleId)%string
                then Schedules.set (Schedules.mkPartial None None None None (Some now)) r
                else r) l.

Definition rewritten {R : Type} (c : cond R) (set : R -> R) (l : list R) : list R :=
  map (fun r => if holds c r then set r else r) l.

(** The world once the statements [stmts] were sent, leaving the database
    [d], after [nd] readings of the clock and [nu] drawn ids. *)
Definition after (d : Db) (stmts : list Stmt) (nd nu : nat) (w : World) : World :=
  mkWorld d (trace w ++ stmts) (dates w) (nd + tick w) (uuids w) (nu + drawn w).

Definition key_taken {R : Type} (T : Table R) (key : string) (d : Db) : bool :=
  existsb (fun r => (pk T r =? key)%string) (stored T d).

Definition participant_of (i : UpsertParticipant.shape) : cond ScheduleParticipants.row :=
    child_of ScheduleParticipants.id ScheduleParticipants.scheduleId
      (match UpsertParticipant.id i with Some c => c | None => "" end)
      (UpsertParticipant.scheduleId i).

Definition participant_set (i : UpsertParticipant.shape)
    : ScheduleParticipants.row -> ScheduleParticipants.row :=
    ScheduleParticipants.set
      (ScheduleParticipants.mkPartial (Some (UpsertParticipant.name i))
         (Some (UpsertParticipant.timeZone i)) (UpsertParticipant.availabilityJson i)).

Definition new_participant (w : World) (i : UpsertParticipant.shape) : ScheduleParticipants.row :=
    ScheduleParticipants.mk (uuids w (drawn w)) (UpsertParticipant.scheduleId i)
      (UpsertParticipant.name i) (UpsertParticipant.timeZone i)
      (UpsertParticipant.availabilityJson i) (dates w (tick w)).

Definition suggestion_of (i : UpsertSuggestion.shape Date Z) : cond ScheduleSuggestions.row :=
    child_of ScheduleSuggestions.id ScheduleSuggestions.scheduleId
      (match UpsertSuggestion.id i with Some c => c | None => "" end)
      (UpsertSuggestion.scheduleId i).

Definition suggestion_set (i : UpsertSuggestion.shape Date Z)
    : ScheduleSuggestions.row -> ScheduleSuggestions.row :=
    ScheduleSuggestions.set
      (ScheduleSuggestions.mkPartial (Some (UpsertSuggestion.suggestedStartUtc i))
         (Some (UpsertSuggestion.suggestedEndUtc i)) (UpsertSuggestion.participantsJson i)
         (UpsertSuggestion.score i) (UpsertSuggestion.notes i)).

Definition new_suggestion (w : World) (i : UpsertSuggestion.shape Date Z) : ScheduleSuggestions.row :=
    ScheduleSuggestions.mk (uuids w (drawn w)) (UpsertSuggestion.scheduleId i)
      (UpsertSuggestion.suggestedStartUtc i) (UpsertSuggestion.suggestedEndUtc i)
      (UpsertSuggestion.participantsJson i) (UpsertSuggestion.score i)
      (UpsertSuggestion.notes i) (dates w (tick w)).

(** The parent's rows after a child mutation: the schedules table is the one
    before with [updatedAt] of the parent set to the last reading of the clock
    made by the call. *)
Definition parent_touched (scheduleId : string) (w w' : World) : Prop :=
  schedules (db w') = touched scheduleId (dates w (pred (tick w'))) (schedules (db w))
  /\ (forall r', In r' (schedules (db w')) -> Schedules.id r' = scheduleId ->
                 Schedules.updatedAt r' = dates w (pred (tick w'))).

(** ** The server as a whole *)

(** [locals?.user] of [requireUser]: who calls, if anybody is signed in. *)
Definition caller (context : Context) : option User :=
  match locals context with
  | Some l => user l
  | None => None
  end.

(** A call of one of the nine actions of [server], with its raw input. *)
Inductive Call : Type :=
| call_createSchedule (raw : CreateSchedule.shape number)
| call_updateSchedule (raw : UpdateSchedule.shape number)
| call_deleteSchedule (raw : DeleteSchedule.shape)
| call_listMySchedules (raw : ListMySchedules.shape (option number))
| call_getScheduleWithDetails (raw : GetScheduleWithDetails.shape)
| call_upsertParticipant (raw : UpsertParticipant.shape)
| call_deleteParticipant (raw : DeleteParticipant.shape)
| call_upsertSuggestion (raw : UpsertSuggestion.shape JsDate number)
| call_deleteSuggestion (raw : DeleteSuggestion.shape).

(** The world a call leaves, whatever it returns. *)
Definition server (c : Call) (context : Context) (w : World) : World :=
  match c with
  | call_createSchedule raw => world_after (createSchedule raw context) w
  | call_updateSchedule raw => world_after (updateSchedule raw context) w
  | call_deleteSchedule raw => world_after (deleteSchedule raw context) w
  | call_listMySchedules raw => world_after (listMySchedules raw context) w
  | call_getScheduleWithDetails raw => world_after (getScheduleWithDetails raw context) w
  | call_upsertParticipant raw => world_after (upsertParticipant raw context) w
  | call_deleteParticipant raw => world_after (deleteParticipant raw context) w
  | call_upsertSuggestion raw => world_after (upsertSuggestion raw context) w
  | call_deleteSuggestion raw => world_after (deleteSuggestion raw context) w
  end.

(** A sequence of calls, each with its own request context, one after the
    other. *)
Fixpoint serve (calls : list (Call * Context)) (w : World) : World :=
  match calls with
  | [] => w
  | (c, context) :: rest => serve rest (server c context w)
  end.

(** Every child row points to a stored schedule. *)
Definition children_have_parent (d : Db) : Prop :=
  (forall p, In p (participants d) ->
     exists s, In s (schedules d) /\ Schedules.id s = ScheduleParticipants.scheduleId p)
  /\ (forall g, In g (suggestions d) ->
     exists s, In s (schedules d) /\ Schedules.id s = ScheduleSuggestions.scheduleId g).

(** What one call can do to the children of the schedule [sid]: append a row
    of that schedule under a key not yet held, rewrite the rows with a given
    id under that schedule without touching their id and scheduleId, or remove
    them. *)
Inductive child_step {R : Type} (id scheduleId : R -> string) (sid : string) (l : list R)
  : list R -> Prop :=
| child_insert (row : R) :
    scheduleId row = sid -> ~ In (id row) (map id l) ->
    child_step id scheduleId sid l (l ++ [row])
| child_update (childId : string) (set : R -> R) :
    (forall r, id (set r) = id r) -> (forall r, scheduleId (set r) = scheduleId r) ->
    child_step id scheduleId sid l (rewritten (child_of id scheduleId childId sid) set l)
| child_delete (childId : string) :
    child_step id scheduleId sid l
      (filter (fun r => negb (holds (child_of id scheduleId childId sid) r)) l).

(** What one call by the user [u] can do to the database. *)
Inductive step (u : string) (d : Db) : Db -> Prop :=
| step_none : step u d d
| step_create (s : Schedules.row) :
    Schedules.ownerUserId s = u ->
    ~ In (Schedules.id s) (map Schedules.id (schedules d)) ->
    step u d (mkDb (schedules d ++ [s]) (participants d) (suggestions d))
| step_update (parent : Schedules.row) (p : Schedules.partial) :
    In parent (schedules d) -> Schedules.ownerUserId parent = u ->
    step u d (mkDb (rewritten (owned (Schedules.id parent) u) (Schedules.set p) (schedules d))
                (participants d) (suggestions d))
| step_delete (parent : Schedules.row) :
    In parent (schedules d) -> Schedules.ownerUserId parent = u ->
    step u d
      (mkDb (filter (fun r => negb (holds (owned (Schedules.id parent) u) r)) (schedules d))
         (filter (fun r => negb (holds (Eq ScheduleParticipants.scheduleId
                                          (Schedules.id parent)) r)) (participants d))
         (filter (fun r => negb (holds (Eq ScheduleSuggestions.scheduleId
                                          (Schedules.id parent)) r)) (suggestions d)))
| step_participant (parent : Schedules.row) (now : Date)
    (ps : list ScheduleParticipants.row) :
    In parent (schedules d) -> Schedules.ownerUserId parent = u ->
    child_step ScheduleParticipants.id ScheduleParticipants.scheduleId
      (Schedules.id parent) (participants d) ps ->
    step u d (mkDb (touched (Schedules.id parent) now (schedules d)) ps (suggestions d))
| step_suggestion (parent : Schedules.row) (now : Date)
    (gs : list ScheduleSuggestions.row) :
    In parent (schedules d) -> Schedules.ownerUserId parent = u ->
    child_step ScheduleSuggestions.id ScheduleSuggestions.scheduleId
      (Schedules.id parent) (suggestions d) gs ->
    step u d (mkDb (touched (Schedules.id parent) now (schedules d)) (participants d) gs).

(** The calls whose handler passes the ownership guard before anything
    else: all but createSchedule and listMySchedules. *)
Definition guarded (c : Call) : bool :=
  match c with
  | call_createSchedule _ | call_listMySchedules _ => false
  | _ => true
  end.

(** What the call added to the log of store statements is nothing, or begins
    with the read of the ownership guard. *)
Definition guard_first (w w' : World) : Prop :=
  exists t, trace w' = (trace w ++ t)%list
            /\ (t = [] \/ hd_error t = Some (SELECT, TSchedules)).

(** The effect of a call on the database is a [step] of its caller, and no
    change at all when nobody is signed in. *)
Definition bounded_by_step (context : Context) (w w' : World) : Prop :=
  match caller context with
  | Some u => step (user_id u) (db w) (db w')
  | None => db w' = db w
  end.

(** The call is turned away for want of a signed-in user, and nothing was
    sent to the store: the world is the one before. *)
Definition turned_away {A : Type} (m : M A) (w : World) : Prop :=
  m w = (ActionError UNAUTHORIZED "You must be signed in to perform this action.", w).

(** The row [createSchedule] builds for the user [u] in the world [w]. *)
Definition new_schedule (w : World) (u : string) (i : CreateSchedule.shape Z)
  : Schedules.row :=
  Schedules.mk (uuids w (drawn w)) u (CreateSchedule.name i) (CreateSchedule.description i)
    (CreateSchedule.baseTimeZone i) (CreateSchedule.durationMinutes i)
    (dates w (tick w)) (dates w (tick w)).

(** ** Lemmas on the store and the guard *)

Lemma unique_key_row {R : Type} (f : R -> string) (l : list R) (a b : R) :
  NoDup (map f l) -> In a l -> In b l -> f a = f b -> a = b.
Proof.
  induction l as [|x l IH]; simpl; intros Hnd Ha Hb Hf; [contradiction|].
  inversion Hnd as [|? ? Hx Hl]; subst.
  destruct Ha as [->|Ha], Hb as [->|Hb]; auto.
  - exfalso. apply Hx. rewrite Hf. now apply in_map.
  - exfalso. apply Hx. rewrite <- Hf. now apply in_map.
Qed.

Lemma filter_none {R : Type} (p : R -> bool) (l : list R) :
  (forall r, In r l -> p r = false) -> filter p l = [].
Proof.
  induction l as [|x l IH]; simpl; intros H; [reflexivity|].
  rewrite (H x) by now left. apply IH. intros r Hr. apply H. now right.
Qed.

Lemma holds_owned (scheduleId userId : string) (r : Schedules.row) :
  holds (owned scheduleId userId) r = true
  <-> Schedules.id r = scheduleId /\ Schedules.ownerUserId r = userId.
Proof.
  simpl. rewrite andb_true_iff, !String.eqb_eq. tauto.
Qed.

Lemma holds_child_of {R : Type} (id scheduleId : R -> string) (i s : string) (r : R) :
  holds (child_of id scheduleId i s) r = true <-> id r = i /\ scheduleId r = s.
Proof.
  simpl. rewrite andb_true_iff, !String.eqb_eq. tauto.
Qed.

(** A schedule of somebody else gives the guard's query no row. *)
Lemma foreign_schedule_no_row (l : list Schedules.row) (S : Schedules.row) (B : string) :
  NoDup (map Schedules.id l) -> In S l -> Schedules.ownerUserId S <> B ->
  filter (holds (owned (Schedules.id S) B)) l = [].
Proof.
  intros Hnd HS HB. apply filter_none. intros r Hr.
  destruct (holds (owned (Schedules.id S) B) r) eqn:E; [|reflexivity].
  apply holds_owned in E. destruct E as [Hid Ho].
  assert (r = S) by (eapply unique_key_row; eauto). subst r. contradiction.
Qed.

Lemma absent_schedule_no_row (l : list Schedules.row) (scheduleId B : string) :
  (forall r, In r l -> Schedules.id r <> scheduleId) ->
  filter (holds (owned scheduleId B)) l = [].
Proof.
  intros H. apply filter_none. intros r Hr.
  destruct (holds (owned scheduleId B) r) eqn:E; [|reflexivity].
  apply holds_owned in E. destruct E as [Hid _]. now apply H in Hr.
Qed.

Lemma getOwnedSchedule_run (scheduleId userId : string) (w : World) :
  getOwnedSchedule scheduleId userId w =
  (match hd_error (filter (holds (owned scheduleId userId)) (schedules (db w))) with
   | Some schedule => Ok schedule
   | None => ActionError NOT_FOUND "Schedule not found."
   end,
   sent (SELECT, TSchedules) (db w) w).
Proof.
  unfold getOwnedSchedule, bind, db_select. simpl.
  destruct (hd_error _); reflexivity.
Qed.

(** Whatever follows the guard is not run when the guard finds no row. *)
Lemma guard_stops {A : Type} (scheduleId userId : string)
    (k : Schedules.row -> M A) (w : World) :
  filter (holds (owned scheduleId userId)) (schedules (db w)) = [] ->
  bind (getOwnedSchedule scheduleId userId) k w =
  (ActionError NOT_FOUND "Schedule not found.", sent (SELECT, TSchedules) (db w) w).
Proof.
  intros H. unfold bind. rewrite getOwnedSchedule_run, H. reflexivity.
Qed.

(** Whatever follows the guard runs on the first matching row. *)
Lemma guard_passes {A : Type} (scheduleId userId : string)
    (k : Schedules.row -> M A) (w : World) (schedule : Schedules.row) :
  hd_error (filter (holds (owned scheduleId userId)) (schedules (db w))) = Some schedule ->
  bind (getOwnedSchedule scheduleId userId) k w =
  k schedule (sent (SELECT, TSchedules) (db w) w).
Proof.
  intros H. unfold bind. rewrite getOwnedSchedule_run, H. reflexivity.
Qed.

Lemma guarded_hidden {A : Type} (scheduleId userId : string)
    (k : Schedules.row -> M A) (w w0 : World) :
  filter (holds (owned scheduleId userId)) (schedules (db w)) = [] ->
  filter (holds (owned scheduleId userId)) (schedules (db w0)) = [] ->
  hidden_from (bind (getOwnedSchedule scheduleId userId) k) w w0.
Proof.
  intros H H0. unfold hidden_from, result_of, world_after.
  rewrite !guard_stops by assumption. simpl. auto.
Qed.

(** The statements of the store keep the primary keys unique. *)
Lemma db_insert_unique {R : Type} (T : Table R) (r : R) (w : World) :
  (forall l d, stored T (put T l d) = l) ->
  unique_keys T (db w) -> unique_keys T (db (world_after (db_insert T r) w)).
Proof.
  intros Hput Hnd. unfold world_after, db_insert, unique_keys in *.
  destruct (existsb _ _) eqn:E; simpl; [assumption|].
  rewrite Hput, map_app. simpl.
  apply NoDup_app; [assumption | repeat constructor; intros [] |].
  intros k Hin [<-|[]]. apply in_map_iff in Hin. destruct Hin as (r' & Hk & Hr').
  assert (existsb (fun r' => (pk T r' =? pk T r)%string) (stored T (db w)) = true).
  { apply existsb_exists. exists r'. split; [assumption|]. now apply String.eqb_eq. }
  congruence.
Qed.

Lemma db_update_unique {R : Type} (T : Table R) (set : R -> R) (c : cond R) (w : World) :
  (forall l d, stored T (put T l d) = l) ->
  (forall r, pk T (set r) = pk T r) ->
  unique_keys T (db w) -> unique_keys T (db (world_after (db_update T set c) w)).
Proof.
  intros Hput Hset Hnd. unfold world_after, db_update, unique_keys in *. simpl.
  rewrite Hput. fold (rewritten c set (stored T (db w))).
  replace (map (pk T) (rewritten c set (stored T (db w))))
    with (map (pk T) (stored T (db w))); [assumption|].
  unfold rewritten. rewrite map_map. apply map_ext.
  intros r. destruct (holds c r); auto.
Qed.

Lemma db_delete_unique {R : Type} (T : Table R) (c : cond R) (w : World) :
  (forall l d, stored T (put T l d) = l) ->
  unique_keys T (db w) -> unique_keys T (db (world_after (db_delete T c) w)).
Proof.
  intros Hput Hnd. unfold world_after, db_delete, unique_keys in *. simpl.
  rewrite Hput. remember (stored T (db w)) as l eqn:El. clear El.
  induction l as [|x l IH]; simpl; [constructor|].
  inversion Hnd as [|? ? Hx Hl]; subst.
  destruct (holds c x); simpl; [now apply IH|].
  constructor; [|now apply IH].
  intros Hin. apply Hx. apply in_map_iff in Hin. destruct Hin as (r & Hk & Hr).
  apply filter_In in Hr. apply in_map_iff. exists r. tauto.
Qed.

Lemma requireUser_signed_in {A : Type} (userId : string) (k : User -> M A) :
  bind (requireUser (signed_in userId)) k = k (mkUser userId).
Proof. reflexivity. Qed.

Lemma wf_sample : wf Sample.database.
Proof.
  unfold wf, unique_keys; simpl.
  repeat split; repeat constructor; simpl; intuition discriminate.
Qed.

(** ** C1: a schedule of another user is hidden *)

(** C1. For every schedule [S] stored in [w] whose owner is not [B], each of
    updateSchedule, deleteSchedule, getScheduleWithDetails, upsertParticipant,
    deleteParticipant, upsertSuggestion and deleteSuggestion, called by [B]
    with an accepted input that names [S], fails with NOT_FOUND and the
    message of the ownership guard, writes nothing, and gives the very same
    result in any world [w0] that holds no schedule with that id. *)
Theorem C1_foreign_schedule_hidden :
  forall (w w0 : World) (S : Schedules.row) (B : string),
    unique_keys SchedulesT (db w) ->
    In S (schedules (db w)) ->
    Schedules.ownerUserId S <> B ->
    (forall r, In r (schedules (db w0)) -> Schedules.id r <> Schedules.id S) ->
    (forall raw i, UpdateSchedule.input raw = Some i ->
       UpdateSchedule.id i = Schedules.id S ->
       hidden_from (updateSchedule raw (signed_in B)) w w0)
    /\ (forall raw i, DeleteSchedule.input raw = Some i ->
       DeleteSchedule.id i = Schedules.id S ->
       hidden_from (deleteSchedule raw (signed_in B)) w w0)
    /\ (forall raw i, GetScheduleWithDetails.input raw = Some i ->
       GetScheduleWithDetails.id i = Schedules.id S ->
       hidden_from (getScheduleWithDetails raw (signed_in B)) w w0)
    /\ (forall raw i, UpsertParticipant.input raw = Some i ->
       UpsertParticipant.scheduleId i = Schedules.id S ->
       hidden_from (upsertParticipant raw (signed_in B)) w w0)
    /\ (forall raw i, DeleteParticipant.input raw = Some i ->
       DeleteParticipant.scheduleId i = Schedules.id S ->
       hidden_from (deleteParticipant raw (signed_in B)) w w0)
    /\ (forall raw i, UpsertSuggestion.input raw = Some i ->
       UpsertSuggestion.scheduleId i = Schedules.id S ->
       hidden_from (upsertSuggestion raw (signed_in B)) w w0)
    /\ (forall raw i, DeleteSuggestion.input raw = Some i ->
       DeleteSuggestion.scheduleId i = Schedules.id S ->
       hidden_from (deleteSuggestion raw (signed_in B)) w w0).
Proof.
  intros w w0 S B Hnd HS HB Habs.
  assert (Hw : filter (holds (owned (Schedules.id S) B)) (schedules (db w)) = [])
    by (apply foreign_schedule_no_row; assumption).
  assert (Hw0 : filter (holds (owned (Schedules.id S) B)) (schedules (db w0)) = [])
    by (apply absent_schedule_no_row; assumption).
  repeat match goal with |- _ /\ _ => split end; intros raw i Hin Hid;
    unfold updateSchedule, deleteSchedule, getScheduleWithDetails,
      upsertParticipant, deleteParticipant, upsertSuggestion, deleteSuggestion,
      defineAction;
    rewrite Hin;
    unfold UpdateSchedule.handler, DeleteSchedule.handler,
      GetScheduleWithDetails.handler, UpsertParticipant.handler,
      DeleteParticipant.handler, UpsertSuggestion.handler, DeleteSuggestion.handler;
    rewrite requireUser_signed_in; cbn [user_id]; rewrite Hid;
    apply guarded_hidden; assumption.
Qed.

Lemma C1_witness :
  hidden_from (updateSchedule (UpdateSchedule.mk "s1" (Some "Taken") None None None)
                 (signed_in "bob")) Sample.world Sample.empty
  /\ hidden_from (deleteSchedule (DeleteSchedule.mk "s1") (signed_in "bob"))
       Sample.world Sample.empty
  /\ hidden_from (getScheduleWithDetails (GetScheduleWithDetails.mk "s1") (signed_in "bob"))
       Sample.world Sample.empty
  /\ hidden_from (upsertParticipant
                    (UpsertParticipant.mk (Some "p1") "s1" "Mallory" "UTC" None)
                    (signed_in "bob")) Sample.world Sample.empty
  /\ hidden_from (deleteParticipant (DeleteParticipant.mk "s1" "p1") (signed_in "bob"))
       Sample.world Sample.empty
  /\ hidden_from (upsertSuggestion
                    (UpsertSuggestion.mk (Some "g1") "s1" (ValidDate 10) (ValidDate 20)
                       None None None)
                    (signed_in "bob")) Sample.world Sample.empty
  /\ hidden_from (deleteSuggestion (DeleteSuggestion.mk "s1" "g1") (signed_in "bob"))
       Sample.world Sample.empty.
Proof.
  destruct (@C1_foreign_schedule_hidden Sample.world Sample.empty Sample.team_sync "bob")
    as (H1 & H2 & H3 & H4 & H5 & H6 & H7).
  - apply (proj1 wf_sample).
  - simpl. auto.
  - discriminate.
  - intros r [].
  - repeat match goal with |- _ /\ _ => split end;
      [eapply H1 | eapply H2 | eapply H3 | eapply H4 | eapply H5 | eapply H6 | eapply H7];
      reflexivity.
Defined.

(** ** C2: deleteSchedule removes the children first *)

Lemma first_match {R : Type} (p : R -> bool) (l : list R) (x : R) :
  In x l -> p x = true ->
  exists y, hd_error (filter p l) = Some y /\ In y l /\ p y = true.
Proof.
  induction l as [|a l IH]; simpl; intros Hin Hp; [contradiction|].
  destruct (p a) eqn:E.
  - exists a. simpl. auto.
  - destruct Hin as [->|Hin]; [congruence|].
    destruct (IH Hin Hp) as (y & H1 & H2 & H3). exists y. auto.
Qed.

(** The guard returns the caller's schedule when it is stored. *)
Lemma owner_passes (l : list Schedules.row) (S : Schedules.row) :
  NoDup (map Schedules.id l) -> In S l ->
  hd_error (filter (holds (owned (Schedules.id S) (Schedules.ownerUserId S))) l) = Some S.
Proof.
  intros Hnd HS.
  destruct (@first_match _ (holds (owned (Schedules.id S) (Schedules.ownerUserId S))) l S HS)
    as (y & Hy & Hin & Hp).
  - apply holds_owned. auto.
  - apply holds_owned in Hp. destruct Hp as [Hid _].
    assert (y = S) by (eapply unique_key_row; eauto). congruence.
Qed.




(** ** C3: an id that is not a child of the target schedule *)

Lemma guard_passes_owner {A : Type} (S : Schedules.row) (k : Schedules.row -> M A)
    (w : World) :
  In S (schedules (db w)) ->
  exists schedule,
    bind (getOwnedSchedule (Schedules.id S) (Schedules.ownerUserId S)) k w =
    k schedule (sent (SELECT, TSchedules) (db w) w).
Proof.
  intros HS.
  destruct (@first_match _ (holds (owned (Schedules.id S) (Schedules.ownerUserId S)))
              (schedules (db w)) S HS) as (y & Hy & _).
  - apply holds_owned. auto.
  - exists y. now apply guard_passes.
Qed.






(** ** What each path of the child actions does *)


Section ParticipantPaths.
Variable w : World.
Variable parent : Schedules.row.
Hypothesis Hparent : In parent (schedules (db w)).

Let sid := Schedules.id parent.
Let ctx := signed_in (Schedules.ownerUserId parent).

Lemma upsertParticipant_run (i : UpsertParticipant.shape) :
  UpsertParticipant.scheduleId i = sid ->
  UpsertParticipant.handler i ctx w =
  if truthy (UpsertParticipant.id i) then
    match hd_error (filter (holds (participant_of i)) (participants (db w))) with
    | None =>
        (ActionError NOT_FOUND "Participant not found for this schedule.",
         after (db w) [(SELECT, TSchedules); (SELECT, TScheduleParticipants)] 0 0 w)
    | Some _ =>
        let l := rewritten (participant_of i) (participant_set i) (participants (db w)) in
        (Ok (filter (holds (Eq ScheduleParticipants.scheduleId sid)) l),
         after (mkDb (touched sid (dates w (tick w)) (schedules (db w))) l
                  (suggestions (db w)))
           [(SELECT, TSchedules); (SELECT, TScheduleParticipants);
            (UPDATE, TScheduleParticipants); (UPDATE, TSchedules);
            (SELECT, TScheduleParticipants)] 1 0 w)
    end
  else if key_taken ScheduleParticipantsT (uuids w (drawn w)) (db w) then
    (StoreError,
     after (db w) [(SELECT, TSchedules); (INSERT, TScheduleParticipants)] 1 1 w)
  else
    let l := (participants (db w) ++ [new_participant w i])%list in
    (Ok (filter (holds (Eq ScheduleParticipants.scheduleId sid)) l),
     after (mkDb (touched sid (dates w (1 + tick w)) (schedules (db w))) l
              (suggestions (db w)))
       [(SELECT, TSchedules); (INSERT, TScheduleParticipants);
        (UPDATE, TSchedules); (SELECT, TScheduleParticipants)] 2 1 w).
Proof.
  intros Hsid. unfold UpsertParticipant.handler, ctx.
  rewrite requireUser_signed_in. cbn [user_id]. rewrite Hsid. unfold sid.
  match goal with
  | |- context [bind (getOwnedSchedule _ _) ?k w] =>
      destruct (guard_passes_owner parent k w Hparent) as (y & ->)
  end.
  unfold participant_of, participant_set, new_participant, key_taken, after, rewritten.
  rewrite Hsid. unfold sid.
  destruct (truthy (UpsertParticipant.id i)).
  - unfold bind, db_select, db_update, touchScheduleUpdatedAt, new_Date, sent. simpl.
    destruct (hd_error _); simpl; rewrite <- ?app_assoc; reflexivity.
  - unfold bind, randomUUID, new_Date, db_insert, touchScheduleUpdatedAt, db_update,
      db_select, sent. simpl.
    destruct (existsb _ _); simpl; rewrite <- ?app_assoc; reflexivity.
Qed.

Lemma deleteParticipant_run (i : DeleteParticipant.shape) :
  DeleteParticipant.scheduleId i = sid ->
  let c := child_of ScheduleParticipants.id ScheduleParticipants.scheduleId
             (DeleteParticipant.participantId i) sid in
  DeleteParticipant.handler i ctx w =
  match hd_error (filter (holds c) (participants (db w))) with
  | None =>
      (ActionError NOT_FOUND "Participant not found for this schedule.",
       after (db w) [(SELECT, TSchedules); (SELECT, TScheduleParticipants)] 0 0 w)
  | Some _ =>
      (Ok tt,
       after (mkDb (touched sid (dates w (tick w)) (schedules (db w)))
                (filter (fun r => negb (holds c r)) (participants (db w)))
                (suggestions (db w)))
         [(SELECT, TSchedules); (SELECT, TScheduleParticipants);
          (DELETE, TScheduleParticipants); (UPDATE, TSchedules)] 1 0 w)
  end.
Proof.
  intros Hsid c. unfold DeleteParticipant.handler, ctx.
  rewrite requireUser_signed_in. cbn [user_id]. rewrite Hsid. unfold sid.
  match goal with
  | |- context [bind (getOwnedSchedule _ _) ?k w] =>
      destruct (guard_passes_owner parent k w Hparent) as (y & ->)
  end.
  unfold c, after, sid.
  unfold bind, ret, db_select, db_delete, db_update, touchScheduleUpdatedAt, new_Date,
    sent.
  simpl.
  destruct (hd_error _); simpl; unfold sent; simpl; rewrite <- ?app_assoc; reflexivity.
Qed.
End ParticipantPaths.

Section SuggestionPaths.
Variable w : World.
Variable parent : Schedules.row.
Hypothesis Hparent : In parent (schedules (db w)).

Let sid := Schedules.id parent.
Let ctx := signed_in (Schedules.ownerUserId parent).

Lemma upsertSuggestion_run (i : UpsertSuggestion.shape Date Z) :
  UpsertSuggestion.scheduleId i = sid ->
  UpsertSuggestion.handler i ctx w =
  if truthy (UpsertSuggestion.id i) then
    match hd_error (filter (holds (suggestion_of i)) (suggestions (db w))) with
    | None =>
        (ActionError NOT_FOUND "Suggestion not found for this schedule.",
         after (db w) [(SELECT, TSchedules); (SELECT, TScheduleSuggestions)] 0 0 w)
    | Some _ =>
        let l := rewritten (suggestion_of i) (suggestion_set i) (suggestions (db w)) in
        (Ok (filter (holds (Eq ScheduleSuggestions.scheduleId sid)) l),
         after (mkDb (touched sid (dates w (tick w)) (schedules (db w)))
                  (participants (db w)) l)
           [(SELECT, TSchedules); (SELECT, TScheduleSuggestions);
            (UPDATE, TScheduleSuggestions); (UPDATE, TSchedules);
            (SELECT, TScheduleSuggestions)] 1 0 w)
    end
  else if key_taken ScheduleSuggestionsT (uuids w (drawn w)) (db w) then
    (StoreError,
     after (db w) [(SELECT, TSchedules); (INSERT, TScheduleSuggestions)] 1 1 w)
  else
    let l := (suggestions (db w) ++ [new_suggestion w i])%list in
    (Ok (filter (holds (Eq ScheduleSuggestions.scheduleId sid)) l),
     after (mkDb (touched sid (dates w (1 + tick w)) (schedules (db w)))
              (participants (db w)) l)
       [(SELECT, TSchedules); (INSERT, TScheduleSuggestions);
        (UPDATE, TSchedules); (SELECT, TScheduleSuggestions)] 2 1 w).
Proof.
  intros Hsid. unfold UpsertSuggestion.handler, ctx.
  rewrite requireUser_signed_in. cbn [user_id]. rewrite Hsid. unfold sid.
  match goal with
  | |- context [bind (getOwnedSchedule _ _) ?k w] =>
      destruct (guard_passes_owner parent k w Hparent) as (y & ->)
  end.
  unfold suggestion_of, suggestion_set, new_suggestion, key_taken, after, rewritten.
  rewrite Hsid. unfold sid.
  destruct (truthy (UpsertSuggestion.id i)).
  - unfold bind, db_select, db_update, touchScheduleUpdatedAt, new_Date, sent. simpl.
    destruct (hd_error _); simpl; rewrite <- ?app_assoc; reflexivity.
  - unfold bind, randomUUID, new_Date, db_insert, touchScheduleUpdatedAt, db_update,
      db_select, sent. simpl.
    destruct (existsb _ _); simpl; rewrite <- ?app_assoc; reflexivity.
Qed.

Lemma deleteSuggestion_run (i : DeleteSuggestion.shape) :
  DeleteSuggestion.scheduleId i = sid ->
  let c := child_of ScheduleSuggestions.id ScheduleSuggestions.scheduleId
             (DeleteSuggestion.suggestionId i) sid in
  DeleteSuggestion.handler i ctx w =
  match hd_error (filter (holds c) (suggestions (db w))) with
  | None =>
      (ActionError NOT_FOUND "Suggestion not found for this schedule.",
       after (db w) [(SELECT, TSchedules); (SELECT, TScheduleSuggestions)] 0 0 w)
  | Some _ =>
      (Ok tt,
       after (mkDb (touched sid (dates w (tick w)) (schedules (db w)))
                (participants (db w))
                (filter (fun r => negb (holds c r)) (suggestions (db w))))
         [(SELECT, TSchedules); (SELECT, TScheduleSuggestions);
          (DELETE, TScheduleSuggestions); (UPDATE, TSchedules)] 1 0 w)
  end.
Proof.
  intros Hsid c. unfold DeleteSuggestion.handler, ctx.
  rewrite requireUser_signed_in. cbn [user_id]. rewrite Hsid. unfold sid.
  match goal with
  | |- context [bind (getOwnedSchedule _ _) ?k w] =>
      destruct (guard_passes_owner parent k w Hparent) as (y & ->)
  end.
  unfold c, after, sid.
  unfold bind, ret, db_select, db_delete, db_update, touchScheduleUpdatedAt, new_Date,
    sent.
  simpl.
  destruct (hd_error _); simpl; unfold sent; simpl; rewrite <- ?app_assoc; reflexivity.
Qed.
End SuggestionPaths.

(** ** C4: create with a fresh id, or update in place *)

Lemma key_free {R : Type} (T : Table R) (key : string) (d : Db) :
  key_taken T key d = false -> ~ In key (map (pk T) (stored T d)).
Proof.
  unfold key_taken. intros H Hin. apply in_map_iff in Hin.
  destruct Hin as (r & Hk & Hr).
  assert (existsb (fun r => (pk T r =? key)%string) (stored T d) = true).
  { apply existsb_exists. exists r. split; [assumption|]. now apply String.eqb_eq. }
  congruence.
Qed.

Lemma rewritten_keeps {R B : Type} (f : R -> B) (c : cond R) (set : R -> R) (l : list R) :
  (forall r, f (set r) = f r) -> map f (rewritten c set l) = map f l.
Proof.
  intros H. unfold rewritten. rewrite map_map. apply map_ext.
  intros r. destruct (holds c r); auto.
Qed.




Lemma accepted_runs_handler {Raw In Out : Type} (input : Raw -> option In)
    (handler : In -> Context -> M Out) (raw : Raw) (i : In) (context : Context) :
  input raw = Some i -> defineAction input handler raw context = handler i context.
Proof.
  intros H. unfold defineAction. now rewrite H.
Qed.



(** ** C5: a child mutation touches the parent schedule *)

Lemma touched_rows (scheduleId : string) (now : Date) (l : list Schedules.row)
    (r' : Schedules.row) :
  In r' (touched scheduleId now l) -> Schedules.id r' = scheduleId ->
  Schedules.updatedAt r' = now.
Proof.
  unfold touched. intros Hin Hid. apply in_map_iff in Hin.
  destruct Hin as (r & Hr & _).
  destruct (Schedules.id r =? scheduleId)%string eqn:E.
  - now subst r'.
  - subst r'. apply String.eqb_neq in E. contradiction.
Qed.

Lemma parent_touched_after (scheduleId : string) (w : World) (nd nu : nat)
    (ps : list ScheduleParticipants.row) (gs : list ScheduleSuggestions.row)
    (stmts : list Stmt) :
  parent_touched scheduleId w
    (after (mkDb (touched scheduleId (dates w (nd + tick w)) (schedules (db w))) ps gs)
       stmts (Datatypes.S nd) nu w).
Proof.
  unfold parent_touched, after. simpl. split; [reflexivity|].
  intros r' Hin Hid. eapply touched_rows; eassumption.
Qed.

(** C5 (amended). [touchScheduleUpdatedAt] leaves the participants and the
    suggestions as they were and rewrites, in the rows of the schedules table
    that carry the given id, the [updatedAt] field alone, to the clock reading
    it takes. Every successful upsertParticipant, deleteParticipant,
    upsertSuggestion and deleteSuggestion by the owner leaves the schedules
    table so touched with the last clock reading of the call: the parent's
    [updatedAt] afterwards is that reading, hence strictly greater than before
    exactly when the clock reads later than the stored value. *)
Theorem C5_child_mutation_touches_parent :
  forall (w : World) (parent : Schedules.row),
    In parent (schedules (db w)) ->
    let sid := Schedules.id parent in
    let ctx := signed_in (Schedules.ownerUserId parent) in
    (let w' := world_after (touchScheduleUpdatedAt sid) w in
     participants (db w') = participants (db w)
     /\ suggestions (db w') = suggestions (db w)
     /\ schedules (db w') = touched sid (dates w (tick w)) (schedules (db w)))
    /\ (forall now r,
          let r' := Schedules.set (Schedules.mkPartial None None None None (Some now)) r in
          r' = Schedules.mk (Schedules.id r) (Schedules.ownerUserId r) (Schedules.name r)
                 (Schedules.description r) (Schedules.baseTimeZone r)
                 (Schedules.durationMinutes r) (Schedules.createdAt r) now)
    /\ (forall r, In r (schedules (db w)) -> Schedules.id r <> sid ->
          forall now, In r (touched sid now (schedules (db w))))
    /\ (forall raw i res, UpsertParticipant.input raw = Some i ->
          UpsertParticipant.scheduleId i = sid ->
          result_of (upsertParticipant raw ctx) w = Ok res ->
          parent_touched sid w (world_after (upsertParticipant raw ctx) w))
    /\ (forall raw i res, DeleteParticipant.input raw = Some i ->
          DeleteParticipant.scheduleId i = sid ->
          result_of (deleteParticipant raw ctx) w = Ok res ->
          parent_touched sid w (world_after (deleteParticipant raw ctx) w))
    /\ (forall raw i res, UpsertSuggestion.input raw = Some i ->
          UpsertSuggestion.scheduleId i = sid ->
          result_of (upsertSuggestion raw ctx) w = Ok res ->
          parent_touched sid w (world_after (upsertSuggestion raw ctx) w))
    /\ (forall raw i res, DeleteSuggestion.input raw = Some i ->
          DeleteSuggestion.scheduleId i = sid ->
          result_of (deleteSuggestion raw ctx) w = Ok res ->
          parent_touched sid w (world_after (deleteSuggestion raw ctx) w)).
Proof.
  intros w parent Hparent sid ctx.
  split; [repeat split|].
  split; [intros now r; reflexivity|].
  split.
  { intros r Hr Hne now. unfold touched. apply in_map_iff. exists r.
    split; [|assumption].
    apply String.eqb_neq in Hne. now rewrite Hne. }
  repeat match goal with |- _ /\ _ => split end; intros raw i res Hin Hsid;
    unfold result_of, world_after, upsertParticipant, deleteParticipant,
      upsertSuggestion, deleteSuggestion;
    rewrite accepted_runs_handler with (i := i) by exact Hin; unfold ctx.
  - rewrite (@upsertParticipant_run w parent Hparent i Hsid).
    destruct (truthy (UpsertParticipant.id i)).
    + destruct (hd_error _); simpl; [intros _ | discriminate].
      apply (parent_touched_after sid w 0).
    + destruct (key_taken _ _ _); simpl; [discriminate | intros _].
      apply (parent_touched_after sid w 1).
  - rewrite (@deleteParticipant_run w parent Hparent i Hsid). cbv zeta.
    destruct (hd_error _); simpl; [intros _ | discriminate].
    apply (parent_touched_after sid w 0).
  - rewrite (@upsertSuggestion_run w parent Hparent i Hsid).
    destruct (truthy (UpsertSuggestion.id i)).
    + destruct (hd_error _); simpl; [intros _ | discriminate].
      apply (parent_touched_after sid w 0).
    + destruct (key_taken _ _ _); simpl; [discriminate | intros _].
      apply (parent_touched_after sid w 1).
  - rewrite (@deleteSuggestion_run w parent Hparent i Hsid). cbv zeta.
    destruct (hd_error _); simpl; [intros _ | discriminate].
    apply (parent_touched_after sid w 0).
Qed.

Lemma C5_witness :
  parent_touched "s1" Sample.world
    (world_after (deleteParticipant (DeleteParticipant.mk "s1" "p1") (signed_in "alice"))
       Sample.world)
  /\ parent_touched "s1" Sample.world
       (world_after (upsertSuggestion
                       (UpsertSuggestion.mk None "s1" (ValidDate 10) (ValidDate 20)
                          None None None)
                       (signed_in "alice"))
          Sample.world).
Proof.
  assert (HS : In Sample.team_sync (schedules (db Sample.world))) by (simpl; auto).
  destruct (@C5_child_mutation_touches_parent Sample.world Sample.team_sync HS)
    as (_ & _ & _ & _ & HdP & HuS & _).
  split.
  - eapply HdP; reflexivity.
  - eapply HuS; reflexivity.
Defined.

(** C5 as stated fails when the clock reads the millisecond already stored:
    the upsert succeeds and the parent's updatedAt is what it was. *)
Lemma C5_same_millisecond_counterexample :
  let call := upsertParticipant (UpsertParticipant.mk (Some "p1") "s1" "Karthik" "UTC" None)
                (signed_in "alice") in
  (exists res, result_of call Sample.frozen = Ok res)
  /\ In Sample.team_sync (schedules (db Sample.frozen))
  /\ In Sample.team_sync (schedules (db (world_after call Sample.frozen)))
  /\ ~ (Schedules.updatedAt Sample.team_sync < Schedules.updatedAt Sample.team_sync)
  /\ forall r', In r' (schedules (db (world_after call Sample.frozen))) ->
                Schedules.id r' = "s1" ->
                ~ (Schedules.updatedAt Sample.team_sync < Schedules.updatedAt r').
Proof.
  simpl. repeat split.
  - eexists. reflexivity.
  - auto.
  - auto.
  - lia.
  - intros r' [<-|[<-|[]]] Hid; [simpl; lia | discriminate].
Qed.

(** ** C6: upsertSuggestion rejects a bad window or score before the store *)

Lemma z_int_some (q : number) (k : Z) : z_int q = Some k -> (q == inject_Z k)%Q.
Proof.
  unfold z_int. destruct (Pos.eqb_spec (Qden (Qred q)) 1) as [E|E]; [|discriminate].
  intros H. inversion H as [Hk].
  transitivity (Qred q); [symmetry; apply Qred_correct|].
  destruct (Qred q) as [n d]. simpl in *. subst d. reflexivity.
Qed.

Lemma z_score_rejects (q : number) :
  (q < 0)%Q \/ (100 < q)%Q \/ (forall k : Z, ~ (q == inject_Z k)%Q) ->
  UpsertSuggestion.z_score q = None.
Proof.
  intros H. unfold UpsertSuggestion.z_score.
  destruct (z_int q) as [k|] eqn:E; [|reflexivity].
  apply z_int_some in E.
  destruct H as [H|[H|H]].
  - rewrite E in H. change 0%Q with (inject_Z 0) in H. rewrite <- Zlt_Qlt in H.
    apply Z.leb_gt in H. now rewrite H.
  - rewrite E in H. change 100%Q with (inject_Z 100) in H. rewrite <- Zlt_Qlt in H.
    apply Z.leb_gt in H. rewrite H. now rewrite andb_false_r.
  - now apply H in E.
Qed.

(** C6. An input of upsertSuggestion whose end is not after its start, or
    whose score is present and below 0, above 100 or not an integer, is
    rejected by the input schema: the call returns the validation failure and
    the world, with all tables and the log of store statements, is untouched
    (the handler, hence the store, is never reached). *)
Theorem C6_upsertSuggestion_validates_first :
  forall (raw : UpsertSuggestion.shape JsDate number) (context : Context) (w : World),
    (exists t0 t1,
        UpsertSuggestion.suggestedStartUtc raw = ValidDate t0
        /\ UpsertSuggestion.suggestedEndUtc raw = ValidDate t1
        /\ t1 <= t0)
    \/ (exists q,
        UpsertSuggestion.score raw = Some q
        /\ ((q < 0)%Q \/ (100 < q)%Q \/ (forall k : Z, ~ (q == inject_Z k)%Q))) ->
    upsertSuggestion raw context w = (InputError, w).
Proof.
  intros raw context w H.
  assert (Hrej : UpsertSuggestion.input raw = None).
  { unfold UpsertSuggestion.input.
    destruct H as [(t0 & t1 & Hs & He & Hle) | (q & Hq & Hbad)].
    - rewrite Hs, He. simpl.
      destruct (z_string_min1 _); [|reflexivity].
      destruct (z_optional _ _); [|reflexivity].
      unfold UpsertSuggestion.refine. simpl.
      apply Z.ltb_ge in Hle. now rewrite Hle.
    - rewrite Hq. simpl. rewrite (z_score_rejects Hbad).
      destruct (z_string_min1 _); [|reflexivity].
      destruct (z_coerce_date _); [|reflexivity].
      destruct (z_coerce_date _); reflexivity. }
  unfold upsertSuggestion, defineAction. now rewrite Hrej.
Qed.

Lemma C6_witness :
  upsertSuggestion
    (UpsertSuggestion.mk None "s1" (ValidDate 20) (ValidDate 20) None None None)
    (signed_in "alice") Sample.world = (InputError, Sample.world)
  /\ upsertSuggestion
       (UpsertSuggestion.mk None "s1" (ValidDate 10) (ValidDate 20) None
          (Some (101 # 1)%Q) None)
       (signed_in "alice") Sample.world = (InputError, Sample.world)
  /\ upsertSuggestion
       (UpsertSuggestion.mk None "s1" (ValidDate 10) (ValidDate 20) None
          (Some (-1 # 1)%Q) None)
       (signed_in "alice") Sample.world = (InputError, Sample.world)
  /\ upsertSuggestion
       (UpsertSuggestion.mk None "s1" (ValidDate 10) (ValidDate 20) None
          (Some (3 # 2)%Q) None)
       (signed_in "alice") Sample.world = (InputError, Sample.world).
Proof.
  split; [|split; [|split]]; apply C6_upsertSuggestion_validates_first.
  - left. exists 20, 20. split; [reflexivity | split; [reflexivity | lia]].
  - right. eexists. split; [reflexivity|]. right. left. reflexivity.
  - right. eexists. split; [reflexivity|]. left. reflexivity.
  - right. eexists. split; [reflexivity|]. right. right.
    intros k. unfold Qeq. simpl. lia.
Defined.

(** ** C7: listMySchedules stops at the count *)

Lemma Qred_inject_Z (k : Z) : Qred (inject_Z k) = inject_Z k.
Proof.
  unfold Qred, inject_Z.
  pose proof (Z.ggcd_gcd k 1) as Hg.
  pose proof (Z.ggcd_correct_divisors k 1) as Hd.
  destruct (Z.ggcd k 1) as (g, (aa, bb)). simpl in *.
  rewrite Z.gcd_1_r in Hg. subst g. destruct Hd as [Ha Hb].
  rewrite Z.mul_1_l in Ha, Hb. subst aa bb. reflexivity.
Qed.

(** C7. What the code does where the claim promises a page. Whatever the
    input and whoever is signed in, listMySchedules never returns items,
    total, page and pageSize: an input the schema rejects ends in the
    validation failure, and an accepted one sends the SELECT of the items and
    then stops with the TypeError thrown by [db.fn.count()], before any count
    is asked of the store. So it is for the caller who owns 25 schedules and
    asks for page 2 with pageSize 10. *)
Theorem C7_listMySchedules_throws_at_count :
  (forall (raw : ListMySchedules.shape (option number)) (u : string) (w : World),
     (exists i, ListMySchedules.input raw = Some i
                /\ listMySchedules raw (signed_in u) w
                   = (TypeError, sent (SELECT, TSchedules) (db w) w))
     \/ (ListMySchedules.input raw = None
         /\ listMySchedules raw (signed_in u) w = (InputError, w)))
  /\ List.length (filter (fun r => (Schedules.ownerUserId r =? "alice")%string)
                    (schedules (db Sample.busy))) = 25%nat
  /\ listMySchedules (ListMySchedules.mk (Some (inject_Z 2)) (Some (inject_Z 10)))
       (signed_in "alice") Sample.busy
     = (TypeError, sent (SELECT, TSchedules) (db Sample.busy) Sample.busy).
Proof.
  split; [|split; reflexivity].
  intros raw u w. unfold listMySchedules, defineAction.
  destruct (ListMySchedules.input raw) as [i|]; [left | right; auto].
  exists i. split; [reflexivity|].
  unfold ListMySchedules.handler. rewrite requireUser_signed_in. reflexivity.
Qed.

(** ** C8: updateSchedule writes the supplied fields only *)

Lemma owned_rows (l : list Schedules.row) (S : Schedules.row) :
  NoDup (map Schedules.id l) -> In S l ->
  filter (holds (owned (Schedules.id S) (Schedules.ownerUserId S))) l = [S].
Proof.
  induction l as [|x l IH]; simpl; intros Hnd HS; [contradiction|].
  inversion Hnd as [|? ? Hx Hl]; subst.
  destruct HS as [->|HS].
  - rewrite !String.eqb_refl. simpl. f_equal.
    apply filter_none. intros r Hr.
    destruct (Schedules.id r =? Schedules.id S)%string eqn:E; [|reflexivity].
    apply String.eqb_eq in E. exfalso. apply Hx. rewrite <- E. now apply in_map.
  - destruct (Schedules.id x =? Schedules.id S)%string eqn:E.
    + apply String.eqb_eq in E. exfalso. apply Hx. rewrite E. now apply in_map.
    + simpl. now apply IH.
Qed.

Lemma filter_rewritten {R : Type} (c : cond R) (set : R -> R) (l : list R) :
  (forall r, holds c (set r) = holds c r) ->
  filter (holds c) (rewritten c set l) = map set (filter (holds c) l).
Proof.
  intros H. unfold rewritten. induction l as [|x l IH]; simpl; [reflexivity|].
  destruct (holds c x) eqn:E.
  - rewrite H, E. simpl. now rewrite IH.
  - rewrite E. exact IH.
Qed.

(** C8. Take a stored schedule and an accepted input of its owner such that
    the row before and the row after the write are rows the client reads back
    as they are (no NUL in a text, durationMinutes a safe integer). Then
    updateSchedule succeeds and rewrites the owner's row with the supplied
    fields and the clock reading as updatedAt: each of name, description,
    baseTimeZone and durationMinutes takes the supplied value when one is
    supplied and keeps its value otherwise; id, ownerUserId and createdAt keep
    their values; every other schedule row and both child tables are as
    before; and the returned record is the row read back from the table after
    the write. *)
Theorem C8_updateSchedule_frame :
  forall (w : World) (S : Schedules.row) (raw : UpdateSchedule.shape number)
         (i : UpdateSchedule.shape Z),
    unique_keys SchedulesT (db w) ->
    In S (schedules (db w)) ->
    Schedules.readable S ->
    UpdateSchedule.input raw = Some i ->
    UpdateSchedule.id i = Schedules.id S ->
    let call := updateSchedule raw (signed_in (Schedules.ownerUserId S)) in
    let w' := world_after call w in
    let S' :=
      Schedules.mk (Schedules.id S) (Schedules.ownerUserId S)
        (match UpdateSchedule.name i with Some v => v | None => Schedules.name S end)
        (match UpdateSchedule.description i with
         | Some v => Some v | None => Schedules.description S end)
        (match UpdateSchedule.baseTimeZone i with
         | Some v => Some v | None => Schedules.baseTimeZone S end)
        (match UpdateSchedule.durationMinutes i with
         | Some v => Some v | None => Schedules.durationMinutes S end)
        (Schedules.createdAt S)
        (dates w (tick w)) in
    Schedules.readable S' ->
    result_of call w = Ok (Some S')
    /\ schedules (db w') =
         map (fun r => if (Schedules.id r =? Schedules.id S)%string then S' else r)
           (schedules (db w))
    /\ hd_error (filter (holds (owned (Schedules.id S) (Schedules.ownerUserId S)))
                   (schedules (db w'))) = Some S'
    /\ participants (db w') = participants (db w)
    /\ suggestions (db w') = suggestions (db w).
Proof.
  intros w S raw i Hnd HS Hreadable Hin Hid call w' S' Hreadable'.
  assert (Hcall : call = UpdateSchedule.handler i (signed_in (Schedules.ownerUserId S)))
    by (apply accepted_runs_handler; assumption).
  set (c := owned (Schedules.id S) (Schedules.ownerUserId S)).
  set (upd := Schedules.set (UpdateSchedule.updateData i (dates w (tick w)))).
  assert (HS' : upd S = S') by reflexivity.
  assert (Hkeep : forall r, holds c (upd r) = holds c r) by reflexivity.
  assert (Hrows : filter (holds c) (schedules (db w)) = [S])
    by (apply owned_rows; assumption).
  assert (Hread : filter (holds c) (rewritten c upd (schedules (db w))) = [S']).
  { rewrite filter_rewritten by exact Hkeep. rewrite Hrows. simpl. now rewrite HS'. }
  assert (Hmap : rewritten c upd (schedules (db w)) =
                 map (fun r => if (Schedules.id r =? Schedules.id S)%string then S' else r)
                   (schedules (db w))).
  { unfold rewritten. apply map_ext_in. intros r Hr. unfold c. simpl.
    destruct (Schedules.id r =? Schedules.id S)%string eqn:E; [|reflexivity].
    apply String.eqb_eq in E.
    assert (r = S) by (eapply unique_key_row; eauto). subst r.
    rewrite String.eqb_refl. exact HS'. }
  assert (Hrun : call w =
    (Ok (Some S'),
     after (mkDb (rewritten c upd (schedules (db w))) (participants (db w))
              (suggestions (db w)))
       [(SELECT, TSchedules); (UPDATE, TSchedules); (SELECT, TSchedules)] 1 0 w)).
  { rewrite Hcall. unfold UpdateSchedule.handler.
    rewrite requireUser_signed_in. cbn [user_id]. rewrite Hid.
    rewrite guard_passes with (schedule := S) by (apply owner_passes; assumption).
    unfold bind, new_Date, db_update, db_select, ret, sent, after.
    cbn [fst snd db trace dates tick uuids drawn stored put SchedulesT tname
         schedules participants suggestions].
    apply f_equal2.
    - apply f_equal. transitivity (hd_error [S']); [|reflexivity].
      apply f_equal. exact Hread.
    - simpl. rewrite <- !app_assoc. reflexivity. }
  unfold w', world_after, result_of. rewrite Hrun.
  unfold after. cbn [fst snd db schedules participants suggestions].
  split; [reflexivity|]. split; [exact Hmap|].
  split; [|split; reflexivity].
  fold c. now rewrite Hread.
Qed.

Lemma C8_witness :
  let call := updateSchedule (UpdateSchedule.mk "s1" None None None (Some (inject_Z 45)))
                (signed_in "alice") in
  result_of call Sample.world
  = Ok (Some (Schedules.mk "s1" "alice" "Team sync" None (Some "Asia/Dubai") (Some 45)
                1000 2000))
  /\ schedules (db (world_after call Sample.world))
     = [Schedules.mk "s1" "alice" "Team sync" None (Some "Asia/Dubai") (Some 45) 1000 2000;
        Sample.client_call].
Proof.
  destruct (@C8_updateSchedule_frame Sample.world Sample.team_sync
              (UpdateSchedule.mk "s1" None None None (Some (inject_Z 45)))
              (UpdateSchedule.mk "s1" None None None (Some 45)))
    as (H1 & H2 & _).
  - apply (proj1 wf_sample).
  - simpl. auto.
  - reflexivity.
  - reflexivity.
  - reflexivity.
  - reflexivity.
  - split; [exact H1 | exact H2].
Defined.

(** ** C9: an empty id is an absent id *)



(** ** C10: what an update through upsert writes *)




(** * Further properties of the server module *)

(** ** The caller *)

Lemma requireUser_caller (context : Context) :
  requireUser context =
  match caller context with
  | Some u => ret u
  | None => throw UNAUTHORIZED "You must be signed in to perform this action."
  end.
Proof.
  unfold requireUser, caller. destruct (locals context) as [l|]; [|reflexivity].
  destruct (user l); reflexivity.
Qed.

Lemma nobody_turned_away {A : Type} (context : Context) (k : User -> M A) (w : World) :
  caller context = None -> turned_away (bind (requireUser context) k) w.
Proof.
  intros H. unfold turned_away, bind. rewrite requireUser_caller, H. reflexivity.
Qed.

Lemma somebody_signed_in {A : Type} (context : Context) (k : User -> M A) (u : User) :
  caller context = Some u ->
  bind (requireUser context) k = bind (requireUser (signed_in (user_id u))) k.
Proof.
  intros H. rewrite requireUser_caller, H. destruct u. reflexivity.
Qed.

(** X1. Without a signed-in user (no [locals], or no [user] in them), each of
    the nine actions, on an input its schema accepts, fails with UNAUTHORIZED
    and the message of [requireUser], and the world is untouched: nothing was
    sent to the store, no clock reading and no id was taken. *)
Theorem X1_unauthenticated_call_turned_away :
  forall (context : Context) (w : World),
    caller context = None ->
    (forall raw i, CreateSchedule.input raw = Some i ->
                   turned_away (createSchedule raw context) w)
    /\ (forall raw i, UpdateSchedule.input raw = Some i ->
                      turned_away (updateSchedule raw context) w)
    /\ (forall raw i, DeleteSchedule.input raw = Some i ->
                      turned_away (deleteSchedule raw context) w)
    /\ (forall raw i, ListMySchedules.input raw = Some i ->
                      turned_away (listMySchedules raw context) w)
    /\ (forall raw i, GetScheduleWithDetails.input raw = Some i ->
                      turned_away (getScheduleWithDetails raw context) w)
    /\ (forall raw i, UpsertParticipant.input raw = Some i ->
                      turned_away (upsertParticipant raw context) w)
    /\ (forall raw i, DeleteParticipant.input raw = Some i ->
                      turned_away (deleteParticipant raw context) w)
    /\ (forall raw i, UpsertSuggestion.input raw = Some i ->
                      turned_away (upsertSuggestion raw context) w)
    /\ (forall raw i, DeleteSuggestion.input raw = Some i ->
                      turned_away (deleteSuggestion raw context) w).
Proof.
  intros context w Hnobody.
  repeat match goal with |- _ /\ _ => split end; intros raw i Hin;
    unfold createSchedule, updateSchedule, deleteSchedule, listMySchedules,
      getScheduleWithDetails, upsertParticipant, deleteParticipant, upsertSuggestion,
      deleteSuggestion;
    rewrite accepted_runs_handler with (i := i) by exact Hin;
    apply nobody_turned_away; exact Hnobody.
Qed.

Lemma X1_witness :
  turned_away (deleteSchedule (DeleteSchedule.mk "s1") (mkContext None)) Sample.world
  /\ turned_away (upsertParticipant (UpsertParticipant.mk None "s1" "Bob" "UTC" None)
                    (mkContext (Some (mkLocals None)))) Sample.world.
Proof.
  split.
  - destruct (@X1_unauthenticated_call_turned_away (mkContext None) Sample.world eq_refl)
      as (_ & _ & H & _).
    eapply H. reflexivity.
  - destruct (@X1_unauthenticated_call_turned_away (mkContext (Some (mkLocals None)))
                Sample.world eq_refl)
      as (_ & _ & _ & _ & _ & H & _).
    eapply H. reflexivity.
Defined.

(** ** createSchedule and getScheduleWithDetails *)

Lemma createSchedule_run (w : World) (u : string) (i : CreateSchedule.shape Z) :
  CreateSchedule.handler i (signed_in u) w =
  if key_taken SchedulesT (uuids w (drawn w)) (db w) then
    (StoreError, after (db w) [(INSERT, TSchedules)] 1 1 w)
  else
    (Ok (new_schedule w u i),
     after (mkDb (schedules (db w) ++ [new_schedule w u i]) (participants (db w))
              (suggestions (db w)))
       [(INSERT, TSchedules)] 1 1 w).
Proof.
  unfold CreateSchedule.handler. rewrite requireUser_signed_in. cbn [user_id].
  unfold bind, new_Date, randomUUID, db_insert, ret, sent, key_taken, after, new_schedule.
  simpl. destruct (existsb _ _); reflexivity.
Qed.

Lemma filter_app_last {R : Type} (p : R -> bool) (l : list R) (x : R) :
  filter p (l ++ [x]) = (filter p l ++ (if p x then [x] else []))%list.
Proof.
  rewrite filter_app. simpl. now destruct (p x).
Qed.

(** X2. createSchedule, called by a signed-in user with an accepted input,
    draws one clock reading and one id. When no stored schedule holds that id
    it appends one row to the schedules: its id is the drawn one, its owner
    the caller, createdAt and updatedAt both the reading, the other fields
    those of the input; it returns that row and leaves both child tables
    alone. When the id is held, the store refuses and no table changes. *)
Theorem X2_createSchedule_inserts_owned_row :
  forall (w : World) (u : string) (raw : CreateSchedule.shape number)
         (i : CreateSchedule.shape Z),
    CreateSchedule.input raw = Some i ->
    let call := createSchedule raw (signed_in u) in
    let s := Schedules.mk (uuids w (drawn w)) u (CreateSchedule.name i)
               (CreateSchedule.description i) (CreateSchedule.baseTimeZone i)
               (CreateSchedule.durationMinutes i) (dates w (tick w)) (dates w (tick w)) in
    (~ In (uuids w (drawn w)) (map Schedules.id (schedules (db w))) ->
       result_of call w = Ok s
       /\ db (world_after call w)
          = mkDb (schedules (db w) ++ [s]) (participants (db w)) (suggestions (db w)))
    /\ (In (uuids w (drawn w)) (map Schedules.id (schedules (db w))) ->
       result_of call w = StoreError
       /\ db (world_after call w) = db w).
Proof.
  intros w u raw i Hin call s.
  unfold call, result_of, world_after, createSchedule.
  rewrite accepted_runs_handler with (i := i) by exact Hin.
  rewrite createSchedule_run.
  destruct (key_taken SchedulesT (uuids w (drawn w)) (db w)) eqn:E.
  - split; [|simpl; auto].
    intros Hfree. exfalso. apply Hfree. unfold key_taken in E.
    apply existsb_exists in E. destruct E as (r & Hr & Hk).
    apply String.eqb_eq in Hk. rewrite <- Hk. now apply (in_map Schedules.id).
  - split; [simpl; auto|].
    intros Htaken. exfalso. now apply (key_free SchedulesT) in E.
Qed.

Lemma X2_witness :
  let call := createSchedule (CreateSchedule.mk "Standup" None None (Some (inject_Z 15)))
                (signed_in "bob") in
  result_of call Sample.world
  = Ok (Schedules.mk "u0" "bob" "Standup" None None (Some 15) 2000 2000)
  /\ db (world_after call Sample.world)
     = mkDb [Sample.team_sync; Sample.client_call;
             Schedules.mk "u0" "bob" "Standup" None None (Some 15) 2000 2000]
         [Sample.karthik; Sample.astra] [Sample.morning; Sample.evening].
Proof.
  destruct (@X2_createSchedule_inserts_owned_row Sample.world "bob"
              (CreateSchedule.mk "Standup" None None (Some (inject_Z 15)))
              (CreateSchedule.mk "Standup" None None (Some 15)) eq_refl)
    as [Hfree _].
  apply Hfree. simpl. intros [H|[H|[]]]; discriminate.
Defined.

Lemma getScheduleWithDetails_run (w : World) (S : Schedules.row) :
  hd_error (filter (holds (owned (Schedules.id S) (Schedules.ownerUserId S)))
              (schedules (db w))) = Some S ->
  GetScheduleWithDetails.handler (GetScheduleWithDetails.mk (Schedules.id S))
    (signed_in (Schedules.ownerUserId S)) w =
  (Ok (GetScheduleWithDetails.mkData S
         (filter (holds (Eq ScheduleParticipants.scheduleId (Schedules.id S)))
            (participants (db w)))
         (filter (holds (Eq ScheduleSuggestions.scheduleId (Schedules.id S)))
            (suggestions (db w)))),
   after (db w)
     [(SELECT, TSchedules); (SELECT, TScheduleParticipants); (SELECT, TScheduleSuggestions)]
     0 0 w).
Proof.
  intros Hfirst. unfold GetScheduleWithDetails.handler.
  rewrite requireUser_signed_in. cbn [user_id GetScheduleWithDetails.id].
  rewrite guard_passes with (schedule := S) by exact Hfirst.
  unfold bind, db_select, ret, sent, after. simpl.
  rewrite <- !app_assoc. reflexivity.
Qed.

(** X3. Take a stored schedule with a non-empty id such that it, its
    participants and its suggestions are rows the client reads back as they
    are (no NUL in a text, durationMinutes and score safe integers). Its owner
    gets from getScheduleWithDetails that schedule together with exactly the
    participants and the suggestions whose scheduleId is its id, in storage
    order; the call sends three reads and leaves the database as it was. *)
Theorem X3_getScheduleWithDetails_returns_aggregate :
  forall (w : World) (S : Schedules.row),
    unique_keys SchedulesT (db w) ->
    In S (schedules (db w)) ->
    Schedules.id S <> "" ->
    Schedules.readable S ->
    (forall p, In p (participants (db w)) ->
               ScheduleParticipants.scheduleId p = Schedules.id S ->
               ScheduleParticipants.readable p) ->
    (forall g, In g (suggestions (db w)) ->
               ScheduleSuggestions.scheduleId g = Schedules.id S ->
               ScheduleSuggestions.readable g) ->
    let call := getScheduleWithDetails (GetScheduleWithDetails.mk (Schedules.id S))
                  (signed_in (Schedules.ownerUserId S)) in
    result_of call w
    = Ok (GetScheduleWithDetails.mkData S
            (filter (fun p => (ScheduleParticipants.scheduleId p =? Schedules.id S)%string)
               (participants (db w)))
            (filter (fun g => (ScheduleSuggestions.scheduleId g =? Schedules.id S)%string)
               (suggestions (db w))))
    /\ db (world_after call w) = db w
    /\ trace (world_after call w)
       = (trace w ++ [(SELECT, TSchedules); (SELECT, TScheduleParticipants);
                      (SELECT, TScheduleSuggestions)])%list.
Proof.
  intros w S Hnd HS Hne Hreadable HreadableP HreadableG call.
  assert (Hin : GetScheduleWithDetails.input (GetScheduleWithDetails.mk (Schedules.id S))
                = Some (GetScheduleWithDetails.mk (Schedules.id S))).
  { unfold GetScheduleWithDetails.input, z_string_min1. simpl.
    apply String.eqb_neq in Hne. now rewrite Hne. }
  unfold call, result_of, world_after, getScheduleWithDetails.
  rewrite accepted_runs_handler with (i := GetScheduleWithDetails.mk (Schedules.id S))
    by exact Hin.
  rewrite getScheduleWithDetails_run by (apply owner_passes; assumption).
  simpl. auto.
Qed.

Lemma X3_witness :
  result_of (getScheduleWithDetails (GetScheduleWithDetails.mk "s1") (signed_in "alice"))
    Sample.world
  = Ok (GetScheduleWithDetails.mkData Sample.team_sync [Sample.karthik] [Sample.morning]).
Proof.
  destruct (@X3_getScheduleWithDetails_returns_aggregate Sample.world Sample.team_sync)
    as (H & _).
  - apply (proj1 wf_sample).
  - simpl. auto.
  - discriminate.
  - reflexivity.
  - intros p [<-|[<-|[]]] _; reflexivity.
  - intros g [<-|[<-|[]]] _; reflexivity.
  - exact H.
Defined.

Lemma no_row_with_key (l : list Schedules.row) (key userId : string) :
  ~ In key (map Schedules.id l) -> filter (holds (owned key userId)) l = [].
Proof.
  intros Hfree. apply absent_schedule_no_row. intros r Hr E.
  apply Hfree. rewrite <- E. now apply (in_map Schedules.id).
Qed.

Lemma orphan_free_participants (d : Db) (key : string) :
  children_have_parent d -> ~ In key (map Schedules.id (schedules d)) ->
  filter (holds (Eq ScheduleParticipants.scheduleId key)) (participants d) = [].
Proof.
  intros [Hp _] Hfree. apply filter_none. intros p Hin. simpl.
  apply String.eqb_neq. intros E. destruct (Hp p Hin) as (s & Hs & Hid).
  apply Hfree. rewrite <- E, <- Hid. now apply (in_map Schedules.id).
Qed.

Lemma orphan_free_suggestions (d : Db) (key : string) :
  children_have_parent d -> ~ In key (map Schedules.id (schedules d)) ->
  filter (holds (Eq ScheduleSuggestions.scheduleId key)) (suggestions d) = [].
Proof.
  intros [_ Hg] Hfree. apply filter_none. intros g Hin. simpl.
  apply String.eqb_neq. intros E. destruct (Hg g Hin) as (s & Hs & Hid).
  apply Hfree. rewrite <- E, <- Hid. now apply (in_map Schedules.id).
Qed.

(** X4. Create, then read back. In a store where every child has a parent,
    after a createSchedule that drew a non-empty id held by no schedule and
    built a row the client reads back as it is (no NUL in a text,
    durationMinutes a safe integer), the creator's getScheduleWithDetails with
    that id returns the very record createSchedule returned, with no
    participants and no suggestions, and any other signed-in user gets
    NOT_FOUND for it. *)
Theorem X4_created_schedule_reads_back :
  forall (w : World) (u : string) (raw : CreateSchedule.shape number)
         (i : CreateSchedule.shape Z),
    CreateSchedule.input raw = Some i ->
    children_have_parent (db w) ->
    ~ In (uuids w (drawn w)) (map Schedules.id (schedules (db w))) ->
    uuids w (drawn w) <> "" ->
    Schedules.readable (new_schedule w u i) ->
    let w1 := world_after (createSchedule raw (signed_in u)) w in
    let read := getScheduleWithDetails (GetScheduleWithDetails.mk (uuids w (drawn w))) in
    exists s,
      s = new_schedule w u i
      /\ result_of (createSchedule raw (signed_in u)) w = Ok s
      /\ result_of (read (signed_in u)) w1 = Ok (GetScheduleWithDetails.mkData s [] [])
      /\ (forall B, B <> u ->
            result_of (read (signed_in B)) w1
            = ActionError NOT_FOUND "Schedule not found.").
Proof.
  intros w u raw i Hin Hparents Hfree Hne Hreadable w1 read.
  assert (Hkey : key_taken SchedulesT (uuids w (drawn w)) (db w) = false).
  { unfold key_taken. destruct (existsb _ _) eqn:E; [|reflexivity].
    exfalso. apply Hfree. apply existsb_exists in E. destruct E as (r & Hr & Hk).
    apply String.eqb_eq in Hk. rewrite <- Hk. now apply (in_map Schedules.id). }
  assert (Hrun : createSchedule raw (signed_in u) w =
                 (Ok (new_schedule w u i),
                  after (mkDb (schedules (db w) ++ [new_schedule w u i])
                           (participants (db w)) (suggestions (db w)))
                    [(INSERT, TSchedules)] 1 1 w)).
  { unfold createSchedule. rewrite accepted_runs_handler with (i := i) by exact Hin.
    rewrite createSchedule_run, Hkey. reflexivity. }
  assert (Haccept : GetScheduleWithDetails.input
                      (GetScheduleWithDetails.mk (uuids w (drawn w)))
                    = Some (GetScheduleWithDetails.mk (uuids w (drawn w)))).
  { unfold GetScheduleWithDetails.input, z_string_min1. simpl.
    apply String.eqb_neq in Hne. now rewrite Hne. }
  exists (new_schedule w u i).
  unfold w1, read, result_of, world_after, getScheduleWithDetails. rewrite Hrun.
  cbn [fst snd]. split; [reflexivity|]. split; [reflexivity|].
  split.
  - rewrite accepted_runs_handler
      with (i := GetScheduleWithDetails.mk (uuids w (drawn w))) by exact Haccept.
    rewrite (@getScheduleWithDetails_run _ (new_schedule w u i)).
    + cbn [fst after db participants suggestions new_schedule Schedules.id].
      rewrite orphan_free_participants, orphan_free_suggestions by assumption.
      reflexivity.
    + cbn [after db schedules new_schedule Schedules.id Schedules.ownerUserId].
      rewrite filter_app_last, no_row_with_key by assumption.
      simpl. now rewrite !String.eqb_refl.
  - intros B HB.
    rewrite accepted_runs_handler
      with (i := GetScheduleWithDetails.mk (uuids w (drawn w))) by exact Haccept.
    unfold GetScheduleWithDetails.handler.
    rewrite requireUser_signed_in. cbn [user_id GetScheduleWithDetails.id].
    rewrite guard_stops; [reflexivity|].
    cbn [after db schedules]. rewrite filter_app_last, no_row_with_key by assumption.
    simpl. apply String.eqb_neq in HB. rewrite String.eqb_sym in HB.
    rewrite HB, andb_false_r. reflexivity.
Qed.

Lemma X4_witness :
  let raw := CreateSchedule.mk "Standup" None None None in
  exists s,
    result_of (createSchedule raw (signed_in "bob")) Sample.world = Ok s
    /\ result_of (getScheduleWithDetails (GetScheduleWithDetails.mk "u0") (signed_in "bob"))
         (world_after (createSchedule raw (signed_in "bob")) Sample.world)
       = Ok (GetScheduleWithDetails.mkData s [] []).
Proof.
  destruct (@X4_created_schedule_reads_back Sample.world "bob"
              (CreateSchedule.mk "Standup" None None None)
              (CreateSchedule.mk "Standup" None None None) eq_refl)
    as (s & _ & H1 & H2 & _).
  - split.
    + intros p [<-|[<-|[]]]; [exists Sample.team_sync | exists Sample.client_call];
        simpl; auto.
    + intros g [<-|[<-|[]]]; [exists Sample.team_sync | exists Sample.client_call];
        simpl; auto.
  - simpl. intros [H|[H|[]]]; discriminate.
  - discriminate.
  - reflexivity.
  - exists s. split; [exact H1 | exact H2].
Defined.

(** ** Deleting a child *)






(** ** What an upsert returns, and when the store refuses it *)

(** X7. Let the parent schedule and its children, before and after the
    write, be rows the client reads back as they are (no NUL in a text,
    durationMinutes and score safe integers). A successful upsertParticipant
    or upsertSuggestion by the owner returns the child collection of the
    target schedule as it is stored after the write: all the rows of the child
    table with that scheduleId, in storage order, and no row of another
    schedule. *)
Theorem X7_upsert_returns_refreshed_collection :
  forall (w : World) (parent : Schedules.row),
    In parent (schedules (db w)) ->
    Schedules.readable parent ->
    let ctx := signed_in (Schedules.ownerUserId parent) in
    (forall raw i l,
       UpsertParticipant.input raw = Some i ->
       UpsertParticipant.scheduleId i = Schedules.id parent ->
       result_of (upsertParticipant raw ctx) w = Ok l ->
       (forall p, In p (participants (db w)) ->
                  ScheduleParticipants.scheduleId p = Schedules.id parent ->
                  ScheduleParticipants.readable p) ->
       (forall p, In p (participants (db (world_after (upsertParticipant raw ctx) w))) ->
                  ScheduleParticipants.scheduleId p = Schedules.id parent ->
                  ScheduleParticipants.readable p) ->
       l = filter (fun p => (ScheduleParticipants.scheduleId p =? Schedules.id parent)%string)
             (participants (db (world_after (upsertParticipant raw ctx) w)))
       /\ forall p, In p l -> ScheduleParticipants.scheduleId p = Schedules.id parent)
    /\ (forall raw i l,
       UpsertSuggestion.input raw = Some i ->
       UpsertSuggestion.scheduleId i = Schedules.id parent ->
       result_of (upsertSuggestion raw ctx) w = Ok l ->
       (forall g, In g (suggestions (db w)) ->
                  ScheduleSuggestions.scheduleId g = Schedules.id parent ->
                  ScheduleSuggestions.readable g) ->
       (forall g, In g (suggestions (db (world_after (upsertSuggestion raw ctx) w))) ->
                  ScheduleSuggestions.scheduleId g = Schedules.id parent ->
                  ScheduleSuggestions.readable g) ->
       l = filter (fun g => (ScheduleSuggestions.scheduleId g =? Schedules.id parent)%string)
             (suggestions (db (world_after (upsertSuggestion raw ctx) w)))
       /\ forall g, In g l -> ScheduleSuggestions.scheduleId g = Schedules.id parent).
Proof.
  intros w parent Hparent Hreadable ctx.
  assert (Hmember : forall (R : Type) (f : R -> string) (l l' : list R),
             l = filter (fun r => (f r =? Schedules.id parent)%string) l' ->
             forall r, In r l -> f r = Schedules.id parent).
  { intros R f l l' -> r Hr. apply filter_In in Hr. now apply String.eqb_eq. }
  split; intros raw i l Hin Hsid;
    unfold result_of, world_after, upsertParticipant, upsertSuggestion;
    rewrite accepted_runs_handler with (i := i) by exact Hin; unfold ctx.
  - rewrite (@upsertParticipant_run w parent Hparent i Hsid).
    destruct (truthy (UpsertParticipant.id i)).
    + destruct (hd_error _); simpl; [|discriminate].
      intros H _ _. inversion H as [Hl]. split; [reflexivity|].
      eapply Hmember. reflexivity.
    + destruct (key_taken _ _ _); simpl; [discriminate|].
      intros H _ _. inversion H as [Hl]. split; [reflexivity|].
      eapply Hmember. reflexivity.
  - rewrite (@upsertSuggestion_run w parent Hparent i Hsid).
    destruct (truthy (UpsertSuggestion.id i)).
    + destruct (hd_error _); simpl; [|discriminate].
      intros H _ _. inversion H as [Hl]. split; [reflexivity|].
      eapply Hmember. reflexivity.
    + destruct (key_taken _ _ _); simpl; [discriminate|].
      intros H _ _. inversion H as [Hl]. split; [reflexivity|].
      eapply Hmember. reflexivity.
Qed.

Lemma X7_witness :
  [Sample.karthik; ScheduleParticipants.mk "u0" "s1" "Bob" "UTC" None 2000]
  = filter (fun p => (ScheduleParticipants.scheduleId p =? "s1")%string)
      (participants (db (world_after
                           (upsertParticipant
                              (UpsertParticipant.mk None "s1" "Bob" "UTC" None)
                              (signed_in "alice")) Sample.world))).
Proof.
  assert (HS : In Sample.team_sync (schedules (db Sample.world))) by (simpl; auto).
  destruct (@X7_upsert_returns_refreshed_collection Sample.world Sample.team_sync HS
              eq_refl)
    as [H _].
  eapply H; try reflexivity.
  - intros p [<-|[<-|[]]] _; reflexivity.
  - intros p [<-|[<-|[<-|[]]]] _; reflexivity.
Defined.



(** ** Input schemas *)

Lemma z_int_positive_some (q : number) (k : Z) :
  z_int_positive q = Some k -> (q == inject_Z k)%Q /\ 0 < k.
Proof.
  unfold z_int_positive. destruct (z_int q) as [k'|] eqn:E; [|discriminate].
  destruct (0 <? k') eqn:Hpos; [|discriminate].
  intros H. inversion H; subst k'. split; [now apply z_int_some|now apply Z.ltb_lt].
Qed.

Lemma z_int_positive_integer_iff (k : Z) :
  z_int_positive (inject_Z k) = if 0 <? k then Some k else None.
Proof.
  unfold z_int_positive, z_int. rewrite Qred_inject_Z. reflexivity.
Qed.

(** X9. updateSchedule with none of name, description, baseTimeZone and
    durationMinutes is rejected by the schema for every id, caller and world,
    before any store access. A description alone is enough, even the empty
    string: with a non-empty id such an input is accepted as it is. *)
Theorem X9_updateSchedule_needs_a_field :
  forall (scheduleId : string),
    (forall context w,
       updateSchedule (UpdateSchedule.mk scheduleId None None None None) context w
       = (InputError, w))
    /\ (forall description,
          scheduleId <> "" ->
          UpdateSchedule.input (UpdateSchedule.mk scheduleId None (Some description) None None)
          = Some (UpdateSchedule.mk scheduleId None (Some description) None None)).
Proof.
  intros scheduleId. split.
  - intros context w. unfold updateSchedule, defineAction, UpdateSchedule.input. simpl.
    destruct (z_string_min1 scheduleId); reflexivity.
  - intros description Hne. unfold UpdateSchedule.input, z_string_min1. simpl.
    apply String.eqb_neq in Hne. now rewrite Hne.
Qed.

Lemma X9_witness :
  UpdateSchedule.input (UpdateSchedule.mk "s1" None (Some "") None None)
  = Some (UpdateSchedule.mk "s1" None (Some "") None None).
Proof.
  destruct (X9_updateSchedule_needs_a_field "s1") as [_ H].
  apply H. discriminate.
Defined.

(** X10. The schema of listMySchedules accepts an integer page and pageSize
    exactly when 1 <= page and 1 <= pageSize <= 100, rejects a page or a
    pageSize that is not an integer, and reads an omitted page as 1 and an
    omitted pageSize as 20; a rejected input ends the call before anything
    else happens. *)
Theorem X10_listMySchedules_schema :
  (forall page pageSize : Z,
     ListMySchedules.input
       (ListMySchedules.mk (Some (inject_Z page)) (Some (inject_Z pageSize)))
     = if (1 <=? page) && (1 <=? pageSize) && (pageSize <=? 100)
       then Some (ListMySchedules.mk page pageSize) else None)
  /\ (forall (q : number) other,
        (forall k : Z, ~ (q == inject_Z k)%Q) ->
        ListMySchedules.input (ListMySchedules.mk (Some q) other) = None
        /\ ListMySchedules.input (ListMySchedules.mk other (Some q)) = None)
  /\ ListMySchedules.input (ListMySchedules.mk None None) = Some (ListMySchedules.mk 1 20)
  /\ (forall raw context w,
        ListMySchedules.input raw = None ->
        listMySchedules raw context w = (InputError, w)).
Proof.
  split; [|split; [|split]].
  - intros page pageSize. unfold ListMySchedules.input. simpl.
    rewrite !z_int_positive_integer_iff.
    replace (1 <=? page) with (0 <? page) by (destruct (Z.ltb_spec 0 page), (Z.leb_spec 1 page); lia).
    replace (1 <=? pageSize) with (0 <? pageSize)
      by (destruct (Z.ltb_spec 0 pageSize), (Z.leb_spec 1 pageSize); lia).
    destruct (0 <? page), (0 <? pageSize), (pageSize <=? 100); reflexivity.
  - intros q other Hq.
    assert (Hrej : z_int_positive q = None).
    { destruct (z_int_positive q) as [k|] eqn:E; [|reflexivity].
      apply z_int_positive_some in E. destruct E as [E _]. now apply Hq in E. }
    unfold ListMySchedules.input. simpl. rewrite Hrej. split; [reflexivity|].
    destruct other as [n|]; [destruct (z_int_positive n)|]; reflexivity.
  - reflexivity.
  - intros raw context w H. unfold listMySchedules, defineAction. now rewrite H.
Qed.

(** The guard either stops the call or hands over a stored schedule of the
    caller with the id asked for. *)
Lemma guard_cases {A : Type} (scheduleId userId : string)
    (k : Schedules.row -> M A) (w : World) :
  (filter (holds (owned scheduleId userId)) (schedules (db w)) = []
   /\ bind (getOwnedSchedule scheduleId userId) k w =
      (ActionError NOT_FOUND "Schedule not found.", sent (SELECT, TSchedules) (db w) w))
  \/ (exists y, In y (schedules (db w))
                /\ Schedules.id y = scheduleId
                /\ Schedules.ownerUserId y = userId
                /\ bind (getOwnedSchedule scheduleId userId) k w =
                   k y (sent (SELECT, TSchedules) (db w) w)).
Proof.
  destruct (filter (holds (owned scheduleId userId)) (schedules (db w))) as [|y l] eqn:E.
  - left. split; [reflexivity|]. now apply guard_stops.
  - right. exists y.
    assert (Hy : In y (filter (holds (owned scheduleId userId)) (schedules (db w))))
      by (rewrite E; now left).
    apply filter_In in Hy. destruct Hy as [Hin Hy]. apply holds_owned in Hy.
    destruct Hy as [Hid Ho]. repeat split; try assumption.
    apply guard_passes. now rewrite E.
Qed.

(** ** The two reading actions *)

Lemma only_reads_app (l : list Stmt) (st : Stmt) :
  Forall (fun s => fst s = SELECT \/ fst s = COUNT) l ->
  fst st = SELECT \/ fst st = COUNT ->
  Forall (fun s => fst s = SELECT \/ fst s = COUNT) (l ++ [st]).
Proof.
  intros Hl Hst. apply Forall_app. split; [assumption|]. now constructor.
Qed.

(** X11. listMySchedules and getScheduleWithDetails never write: for every
    input, caller and world the database after the call is the database
    before it, and if the log held only reads (SELECT, COUNT) before the call
    it holds only reads after it. *)
Theorem X11_reading_actions_never_write :
  forall (context : Context) (w : World),
    (forall raw,
       db (world_after (listMySchedules raw context) w) = db w
       /\ (Forall (fun s => fst s = SELECT \/ fst s = COUNT) (trace w) ->
           Forall (fun s => fst s = SELECT \/ fst s = COUNT)
             (trace (world_after (listMySchedules raw context) w))))
    /\ (forall raw,
       db (world_after (getScheduleWithDetails raw context) w) = db w
       /\ (Forall (fun s => fst s = SELECT \/ fst s = COUNT) (trace w) ->
           Forall (fun s => fst s = SELECT \/ fst s = COUNT)
             (trace (world_after (getScheduleWithDetails raw context) w)))).
Proof.
  intros context w. split; intros raw; unfold world_after.
  - unfold listMySchedules, defineAction.
    destruct (ListMySchedules.input raw) as [i|]; [|simpl; auto].
    unfold ListMySchedules.handler.
    destruct (caller context) as [u|] eqn:Hu.
    + rewrite somebody_signed_in with (u := u) by exact Hu.
      rewrite requireUser_signed_in. simpl. split; [reflexivity|].
      intros H. repeat apply only_reads_app; simpl; auto.
    + rewrite nobody_turned_away by exact Hu. simpl. auto.
  - unfold getScheduleWithDetails, defineAction.
    destruct (GetScheduleWithDetails.input raw) as [i|]; [|simpl; auto].
    unfold GetScheduleWithDetails.handler.
    destruct (caller context) as [u|] eqn:Hu.
    + rewrite somebody_signed_in with (u := u) by exact Hu.
      rewrite requireUser_signed_in.
      match goal with
      | |- context [bind (getOwnedSchedule ?sid ?uid) ?k w] =>
          destruct (guard_cases sid uid k w) as [[_ ->] | (y & _ & _ & _ & ->)]
      end.
      * simpl. split; [reflexivity|]. intros H. apply only_reads_app; simpl; auto.
      * simpl. split; [reflexivity|].
        intros H. repeat apply only_reads_app; simpl; auto.
    + rewrite nobody_turned_away by exact Hu. simpl. auto.
Qed.

Lemma X10_witness :
  ListMySchedules.input (ListMySchedules.mk (Some (3 # 2)%Q) None) = None
  /\ listMySchedules (ListMySchedules.mk (Some (inject_Z 1)) (Some (inject_Z 101)))
       (signed_in "alice") Sample.world = (InputError, Sample.world).
Proof.
  destruct X10_listMySchedules_schema as (Hint & Hfrac & _ & Hrej).
  split.
  - apply (Hfrac (3 # 2)%Q None). intros k. unfold Qeq. simpl. lia.
  - apply Hrej. rewrite Hint. reflexivity.
Defined.

Lemma X11_witness :
  db (world_after (getScheduleWithDetails (GetScheduleWithDetails.mk "s1")
                     (signed_in "alice")) Sample.world) = Sample.database
  /\ Forall (fun s => fst s = SELECT \/ fst s = COUNT)
       (trace (world_after (listMySchedules (ListMySchedules.mk None None)
                              (signed_in "alice")) Sample.world)).
Proof.
  destruct (X11_reading_actions_never_write (signed_in "alice") Sample.world)
    as [Hlist Hget].
  split.
  - apply Hget.
  - apply Hlist. constructor.
Defined.

(** ** Every call is a step of its caller *)

Lemma owned_row_cases (scheduleId userId : string) (l : list Schedules.row) :
  filter (holds (owned scheduleId userId)) l = []
  \/ exists y, In y l /\ Schedules.id y = scheduleId /\ Schedules.ownerUserId y = userId.
Proof.
  destruct (filter (holds (owned scheduleId userId)) l) as [|y l'] eqn:E; [now left|].
  right. exists y.
  assert (Hy : In y (filter (holds (owned scheduleId userId)) l)) by (rewrite E; now left).
  apply filter_In in Hy. destruct Hy as [Hin Hy]. apply holds_owned in Hy. tauto.
Qed.

Lemma step_of_createSchedule (i : CreateSchedule.shape Z) (u : string) (w : World) :
  step u (db w) (db (snd (CreateSchedule.handler i (signed_in u) w))).
Proof.
  rewrite createSchedule_run.
  destruct (key_taken SchedulesT (uuids w (drawn w)) (db w)) eqn:E.
  - apply step_none.
  - apply step_create with (s := new_schedule w u i); [reflexivity|].
    now apply (key_free SchedulesT) in E.
Qed.

Lemma step_of_updateSchedule (i : UpdateSchedule.shape Z) (u : string) (w : World) :
  step u (db w) (db (snd (UpdateSchedule.handler i (signed_in u) w))).
Proof.
  unfold UpdateSchedule.handler. rewrite requireUser_signed_in. cbn [user_id].
  match goal with
  | |- context [bind (getOwnedSchedule ?sid ?uid) ?k w] =>
      destruct (guard_cases sid uid k w) as [[_ ->] | (y & Hin & Hid & Ho & ->)]
  end.
  - apply step_none.
  - rewrite <- Hid.
    apply step_update with (parent := y)
                           (p := UpdateSchedule.updateData i (dates w (tick w)));
      assumption.
Qed.

Lemma step_of_deleteSchedule (i : DeleteSchedule.shape) (u : string) (w : World) :
  step u (db w) (db (snd (DeleteSchedule.handler i (signed_in u) w))).
Proof.
  unfold DeleteSchedule.handler. rewrite requireUser_signed_in. cbn [user_id].
  match goal with
  | |- context [bind (getOwnedSchedule ?sid ?uid) ?k w] =>
      destruct (guard_cases sid uid k w) as [[_ ->] | (y & Hin & Hid & Ho & ->)]
  end.
  - apply step_none.
  - rewrite <- Hid. apply step_delete with (parent := y); assumption.
Qed.

Lemma step_of_listMySchedules (i : ListMySchedules.shape Z) (u : string) (w : World) :
  step u (db w) (db (snd (ListMySchedules.handler i (signed_in u) w))).
Proof.
  apply step_none.
Qed.

Lemma step_of_getScheduleWithDetails (i : GetScheduleWithDetails.shape) (u : string)
    (w : World) :
  step u (db w) (db (snd (GetScheduleWithDetails.handler i (signed_in u) w))).
Proof.
  unfold GetScheduleWithDetails.handler. rewrite requireUser_signed_in. cbn [user_id].
  match goal with
  | |- context [bind (getOwnedSchedule ?sid ?uid) ?k w] =>
      destruct (guard_cases sid uid k w) as [[_ ->] | (y & Hin & Hid & Ho & ->)]
  end; apply step_none.
Qed.

Lemma step_of_upsertParticipant (i : UpsertParticipant.shape) (u : string) (w : World) :
  step u (db w) (db (snd (UpsertParticipant.handler i (signed_in u) w))).
Proof.
  destruct (owned_row_cases (UpsertParticipant.scheduleId i) u (schedules (db w)))
    as [Hnone | (y & Hin & Hid & Ho)].
  - unfold UpsertParticipant.handler. rewrite requireUser_signed_in. cbn [user_id].
    rewrite guard_stops by exact Hnone. apply step_none.
  - subst u. rewrite (@upsertParticipant_run w y Hin i (eq_sym Hid)).
    destruct (truthy (UpsertParticipant.id i)).
    + destruct (hd_error _); [|apply step_none].
      cbv zeta. cbn [snd after db].
      apply step_participant with (parent := y); [assumption | reflexivity |].
      unfold participant_of. rewrite <- Hid.
      apply child_update; reflexivity.
    + destruct (key_taken ScheduleParticipantsT (uuids w (drawn w)) (db w)) eqn:E;
        [apply step_none|].
      cbv zeta. cbn [snd after db].
      apply step_participant with (parent := y); [assumption | reflexivity |].
      apply child_insert; [symmetry; exact Hid|].
      now apply (key_free ScheduleParticipantsT) in E.
Qed.

Lemma step_of_deleteParticipant (i : DeleteParticipant.shape) (u : string) (w : World) :
  step u (db w) (db (snd (DeleteParticipant.handler i (signed_in u) w))).
Proof.
  destruct (owned_row_cases (DeleteParticipant.scheduleId i) u (schedules (db w)))
    as [Hnone | (y & Hin & Hid & Ho)].
  - unfold DeleteParticipant.handler. rewrite requireUser_signed_in. cbn [user_id].
    rewrite guard_stops by exact Hnone. apply step_none.
  - subst u. rewrite (@deleteParticipant_run w y Hin i (eq_sym Hid)). cbv zeta.
    destruct (hd_error _); [|apply step_none].
    cbn [snd after db].
    apply step_participant with (parent := y); [assumption | reflexivity |].
    apply child_delete.
Qed.

Lemma step_of_upsertSuggestion (i : UpsertSuggestion.shape Date Z) (u : string)
    (w : World) :
  step u (db w) (db (snd (UpsertSuggestion.handler i (signed_in u) w))).
Proof.
  destruct (owned_row_cases (UpsertSuggestion.scheduleId i) u (schedules (db w)))
    as [Hnone | (y & Hin & Hid & Ho)].
  - unfold UpsertSuggestion.handler. rewrite requireUser_signed_in. cbn [user_id].
    rewrite guard_stops by exact Hnone. apply step_none.
  - subst u. rewrite (@upsertSuggestion_run w y Hin i (eq_sym Hid)).
    destruct (truthy (UpsertSuggestion.id i)).
    + destruct (hd_error _); [|apply step_none].
      cbv zeta. cbn [snd after db].
      apply step_suggestion with (parent := y); [assumption | reflexivity |].
      unfold suggestion_of. rewrite <- Hid.
      apply child_update; reflexivity.
    + destruct (key_taken ScheduleSuggestionsT (uuids w (drawn w)) (db w)) eqn:E;
        [apply step_none|].
      cbv zeta. cbn [snd after db].
      apply step_suggestion with (parent := y); [assumption | reflexivity |].
      apply child_insert; [symmetry; exact Hid|].
      now apply (key_free ScheduleSuggestionsT) in E.
Qed.

Lemma step_of_deleteSuggestion (i : DeleteSuggestion.shape) (u : string) (w : World) :
  step u (db w) (db (snd (DeleteSuggestion.handler i (signed_in u) w))).
Proof.
  destruct (owned_row_cases (DeleteSuggestion.scheduleId i) u (schedules (db w)))
    as [Hnone | (y & Hin & Hid & Ho)].
  - unfold DeleteSuggestion.handler. rewrite requireUser_signed_in. cbn [user_id].
    rewrite guard_stops by exact Hnone. apply step_none.
  - subst u. rewrite (@deleteSuggestion_run w y Hin i (eq_sym Hid)). cbv zeta.
    destruct (hd_error _); [|apply step_none].
    cbn [snd after db].
    apply step_suggestion with (parent := y); [assumption | reflexivity |].
    apply child_delete.
Qed.

(** Whoever calls, the handler of an accepted input either turns the call
    away or runs as for the signed-in caller. *)
Lemma handler_bounded {In Out : Type} (handler : In -> Context -> M Out)
    (i : In) (context : Context) (w : World) :
  (exists k, forall ctx, handler i ctx = bind (requireUser ctx) k) ->
  (forall u, step u (db w) (db (snd (handler i (signed_in u) w)))) ->
  bounded_by_step context w (snd (handler i context w)).
Proof.
  intros (k & Hk) Hstep. unfold bounded_by_step.
  destruct (caller context) as [u|] eqn:Hu.
  - assert (handler i context = handler i (signed_in (user_id u))) as ->; [|apply Hstep].
    rewrite !Hk. now apply somebody_signed_in.
  - rewrite Hk. rewrite nobody_turned_away by exact Hu. reflexivity.
Qed.

Lemma server_step (c : Call) (context : Context) (w : World) :
  bounded_by_step context w (server c context w).
Proof.
  assert (Hstay : bounded_by_step context w w).
  { unfold bounded_by_step. destruct (caller context); [apply step_none | reflexivity]. }
  destruct c as [raw|raw|raw|raw|raw|raw|raw|raw|raw]; unfold server, world_after;
    unfold createSchedule, updateSchedule, deleteSchedule, listMySchedules,
      getScheduleWithDetails, upsertParticipant, deleteParticipant, upsertSuggestion,
      deleteSuggestion, defineAction;
    match goal with
    | |- context [match ?input raw with _ => _ end] =>
        destruct (input raw) as [i|]; [|exact Hstay]
    end;
    apply handler_bounded; try (eexists; intros ctx; reflexivity); intros u.
  - apply step_of_createSchedule.
  - apply step_of_updateSchedule.
  - apply step_of_deleteSchedule.
  - apply step_of_listMySchedules.
  - apply step_of_getScheduleWithDetails.
  - apply step_of_upsertParticipant.
  - apply step_of_deleteParticipant.
  - apply step_of_upsertSuggestion.
  - apply step_of_deleteSuggestion.
Qed.

(** ** Invariants of the store under any call *)

Lemma NoDup_snoc {B : Type} (l : list B) (a : B) :
  NoDup l -> ~ In a l -> NoDup (l ++ [a]).
Proof.
  intros Hl Ha. apply NoDup_app; [assumption | repeat constructor; intros [] |].
  intros b Hb [<-|[]]. contradiction.
Qed.

Lemma NoDup_map_filter {R B : Type} (f : R -> B) (p : R -> bool) (l : list R) :
  NoDup (map f l) -> NoDup (map f (filter p l)).
Proof.
  induction l as [|x l IH]; simpl; intros Hnd; [constructor|].
  inversion Hnd as [|? ? Hx Hl]; subst.
  destruct (p x); simpl; [|now apply IH].
  constructor; [|now apply IH].
  intros Hin. apply Hx. apply in_map_iff in Hin. destruct Hin as (r & Hk & Hr).
  apply filter_In in Hr. apply in_map_iff. exists r. tauto.
Qed.

Lemma touched_ids (scheduleId : string) (now : Date) (l : list Schedules.row) :
  map Schedules.id (touched scheduleId now l) = map Schedules.id l.
Proof.
  unfold touched. rewrite map_map. apply map_ext.
  intros r. destruct (Schedules.id r =? scheduleId)%string; reflexivity.
Qed.

Lemma child_step_unique {R : Type} (id scheduleId : R -> string) (sid : string)
    (l l' : list R) :
  child_step id scheduleId sid l l' -> NoDup (map id l) -> NoDup (map id l').
Proof.
  intros Hstep Hnd. destruct Hstep as [row Hsid Hfree | childId set Hid Hs | childId].
  - rewrite map_app. simpl. now apply NoDup_snoc.
  - now rewrite rewritten_keeps.
  - now apply NoDup_map_filter.
Qed.

Lemma step_wf (u : string) (d d' : Db) : step u d d' -> wf d -> wf d'.
Proof.
  intros Hstep (HS & HP & HG). unfold wf, unique_keys in *. simpl in *.
  destruct Hstep as [| s Ho Hfree | parent p Hin Ho | parent Hin Ho
                     | parent now ps Hin Ho Hc | parent now gs Hin Ho Hc]; simpl.
  - auto.
  - repeat split; try assumption. rewrite map_app. simpl. now apply NoDup_snoc.
  - repeat split; try assumption. now rewrite rewritten_keeps.
  - repeat split; now apply NoDup_map_filter.
  - repeat split; try assumption.
    + now rewrite touched_ids.
    + eapply child_step_unique; eassumption.
  - repeat split; try assumption.
    + now rewrite touched_ids.
    + eapply child_step_unique; eassumption.
Qed.

Lemma serve_invariant (I : Db -> Prop) :
  (forall c context w, I (db w) -> I (db (server c context w))) ->
  forall calls w, I (db w) -> I (db (serve calls w)).
Proof.
  intros Hone calls. induction calls as [|[c context] rest IH]; simpl; intros w Hw.
  - exact Hw.
  - apply IH. now apply Hone.
Qed.

Lemma server_keeps (I : Db -> Prop) :
  (forall u d d', step u d d' -> I d -> I d') ->
  forall c context w, I (db w) -> I (db (server c context w)).
Proof.
  intros Hstep c context w Hw. pose proof (server_step c context w) as Hb.
  unfold bounded_by_step in Hb. destruct (caller context) as [u|].
  - eapply Hstep; eassumption.
  - now rewrite Hb.
Qed.

(** X12. Primary keys stay unique. If no two rows of a table share their id
    before, then after any sequence of calls of the nine actions, by any
    callers, signed in or not, with any inputs, accepted or not, and whatever
    the clock and the id generator give, no two rows of a table share their
    id. *)
Theorem X12_serve_keeps_keys_unique :
  forall (calls : list (Call * Context)) (w : World),
    wf (db w) -> wf (db (serve calls w)).
Proof.
  apply serve_invariant. apply server_keeps. exact step_wf.
Qed.

Lemma X12_witness :
  wf (db (serve [(call_upsertParticipant (UpsertParticipant.mk None "s1" "Bob" "UTC" None),
                  signed_in "alice");
                 (call_deleteSchedule (DeleteSchedule.mk "s2"), signed_in "alice")]
            Sample.world)).
Proof.
  apply X12_serve_keeps_keys_unique. exact wf_sample.
Defined.

Lemma children_have_parent_ids (d : Db) :
  children_have_parent d <->
  (forall p, In p (participants d) ->
             In (ScheduleParticipants.scheduleId p) (map Schedules.id (schedules d)))
  /\ (forall g, In g (suggestions d) ->
                In (ScheduleSuggestions.scheduleId g) (map Schedules.id (schedules d))).
Proof.
  unfold children_have_parent.
  split; intros [HP HG]; split; intros r Hr.
  - destruct (HP r Hr) as (s & Hs & <-). now apply in_map.
  - destruct (HG r Hr) as (s & Hs & <-). now apply in_map.
  - apply HP, in_map_iff in Hr. destruct Hr as (s & Hid & Hs). eauto.
  - apply HG, in_map_iff in Hr. destruct Hr as (s & Hid & Hs). eauto.
Qed.

Lemma child_step_parents {R : Type} (id scheduleId : R -> string) (sid : string)
    (l l' : list R) (ids : list string) :
  child_step id scheduleId sid l l' -> In sid ids ->
  (forall r, In r l -> In (scheduleId r) ids) ->
  forall r, In r l' -> In (scheduleId r) ids.
Proof.
  intros Hstep Hsid Hl r Hr.
  destruct Hstep as [row Hrow Hfree | childId set Hid Hs | childId].
  - apply in_app_or in Hr. destruct Hr as [Hr|[<-|[]]]; [now apply Hl|].
    now rewrite Hrow.
  - unfold rewritten in Hr. apply in_map_iff in Hr. destruct Hr as (r0 & <- & Hr0).
    destruct (holds _ r0); [rewrite Hs|]; now apply Hl.
  - apply filter_In in Hr. now apply Hl.
Qed.

Lemma step_parents (u : string) (d d' : Db) :
  step u d d' -> children_have_parent d -> children_have_parent d'.
Proof.
  intros Hstep Hd. apply children_have_parent_ids in Hd. destruct Hd as [HP HG].
  apply children_have_parent_ids.
  destruct Hstep as [| s Ho Hfree | parent p Hin Ho | parent Hin Ho
                     | parent now ps Hin Ho Hc | parent now gs Hin Ho Hc]; simpl.
  - auto.
  - rewrite map_app. split; intros r Hr; apply in_or_app; left; auto.
  - rewrite rewritten_keeps by reflexivity. auto.
  - assert (Hkept : forall key, key <> Schedules.id parent ->
                In key (map Schedules.id (schedules d)) ->
                In key (map Schedules.id
                          (filter (fun r => negb (holds (owned (Schedules.id parent) u) r))
                             (schedules d)))).
    { intros key Hne Hkey. apply in_map_iff in Hkey. destruct Hkey as (s & Hid & Hs).
      apply in_map_iff. exists s. split; [assumption|].
      apply filter_In. split; [assumption|]. simpl.
      subst key. apply String.eqb_neq in Hne. now rewrite Hne. }
    split; intros r Hr; apply filter_In in Hr; destruct Hr as [Hr Hne]; simpl in Hne;
      apply negb_true_iff, String.eqb_neq in Hne; apply Hkept; auto.
  - rewrite touched_ids. split; [|assumption].
    eapply child_step_parents; [eassumption | now apply in_map | assumption].
  - rewrite touched_ids. split; [assumption|].
    eapply child_step_parents; [eassumption | now apply in_map | assumption].
Qed.

(** X13. No child outlives or precedes its parent. If every participant and
    every suggestion points to a stored schedule before, then so it is after
    any sequence of calls of the nine actions, whoever makes them and whatever
    their inputs: deleteSchedule removes the children with the schedule, and a
    child is only ever created under a schedule the guard has found. *)
Theorem X13_serve_keeps_children_with_parent :
  forall (calls : list (Call * Context)) (w : World),
    children_have_parent (db w) -> children_have_parent (db (serve calls w)).
Proof.
  apply serve_invariant. apply server_keeps. exact step_parents.
Qed.

Lemma X13_witness :
  children_have_parent
    (db (serve [(call_createSchedule (CreateSchedule.mk "Standup" None None None),
                 signed_in "bob");
                (call_upsertSuggestion
                   (UpsertSuggestion.mk None "u0" (ValidDate 10) (ValidDate 20)
                      None None None),
                 signed_in "bob");
                (call_deleteSchedule (DeleteSchedule.mk "u0"), signed_in "bob")]
           Sample.empty)).
Proof.
  apply X13_serve_keeps_children_with_parent.
  split; intros r [].
Defined.

(** ** What the calls of other users cannot do *)

Lemma filter_map_if {R : Type} (q c : R -> bool) (g : R -> R) (l : list R) :
  (forall r, In r l -> c r = true -> q r = false /\ q (g r) = false) ->
  filter q (map (fun r => if c r then g r else r) l) = filter q l.
Proof.
  induction l as [|x l IH]; simpl; intros H; [reflexivity|].
  rewrite IH by (intros r Hr; apply H; now right).
  destruct (c x) eqn:E; [|reflexivity].
  destruct (H x (or_introl eq_refl) E) as [-> ->]. reflexivity.
Qed.

Lemma filter_filter_other {R : Type} (q c : R -> bool) (l : list R) :
  (forall r, In r l -> c r = true -> q r = false) ->
  filter q (filter (fun r => negb (c r)) l) = filter q l.
Proof.
  induction l as [|x l IH]; simpl; intros H; [reflexivity|].
  destruct (c x) eqn:E; simpl.
  - rewrite (H x (or_introl eq_refl) E). apply IH. intros r Hr. apply H. now right.
  - rewrite IH by (intros r Hr; apply H; now right). reflexivity.
Qed.

Lemma child_step_frame {R : Type} (id scheduleId : R -> string) (sid other : string)
    (l l' : list R) :
  child_step id scheduleId sid l l' -> other <> sid ->
  filter (fun r => (scheduleId r =? other)%string) l'
  = filter (fun r => (scheduleId r =? other)%string) l.
Proof.
  intros Hstep Hne.
  assert (Hoff : forall r, scheduleId r = sid -> (scheduleId r =? other)%string = false).
  { intros r Hr. apply String.eqb_neq. congruence. }
  destruct Hstep as [row Hrow Hfree | childId set Hid Hs | childId].
  - rewrite filter_app_last, (Hoff row Hrow). apply app_nil_r.
  - unfold rewritten. apply filter_map_if. intros r _ Hc.
    apply holds_child_of in Hc. destruct Hc as [_ Hc].
    rewrite Hs. split; now apply Hoff.
  - apply filter_filter_other. intros r _ Hc.
    apply holds_child_of in Hc. destruct Hc as [_ Hc]. now apply Hoff.
Qed.

Lemma step_isolated (u A : string) (d d' : Db) :
  step u d d' -> u <> A -> NoDup (map Schedules.id (schedules d)) ->
  filter (fun s => (Schedules.ownerUserId s =? A)%string) (schedules d')
  = filter (fun s => (Schedules.ownerUserId s =? A)%string) (schedules d)
  /\ forall s, In s (schedules d) -> Schedules.ownerUserId s = A ->
       filter (fun p => (ScheduleParticipants.scheduleId p =? Schedules.id s)%string)
         (participants d')
       = filter (fun p => (ScheduleParticipants.scheduleId p =? Schedules.id s)%string)
           (participants d)
       /\ filter (fun g => (ScheduleSuggestions.scheduleId g =? Schedules.id s)%string)
            (suggestions d')
          = filter (fun g => (ScheduleSuggestions.scheduleId g =? Schedules.id s)%string)
              (suggestions d).
Proof.
  intros Hstep Hne Hnd.
  assert (Hmine : forall r, Schedules.ownerUserId r = u ->
                            (Schedules.ownerUserId r =? A)%string = false).
  { intros r Hr. apply String.eqb_neq. congruence. }
  assert (Hother : forall parent s, In parent (schedules d) -> In s (schedules d) ->
                     Schedules.ownerUserId parent = u -> Schedules.ownerUserId s = A ->
                     Schedules.id s <> Schedules.id parent).
  { intros parent s Hp Hs Hpu HsA E.
    assert (s = parent) by (eapply unique_key_row; eauto). congruence. }
  assert (Htouch : forall parent now, In parent (schedules d) ->
                     Schedules.ownerUserId parent = u ->
                     filter (fun s => (Schedules.ownerUserId s =? A)%string)
                       (touched (Schedules.id parent) now (schedules d))
                     = filter (fun s => (Schedules.ownerUserId s =? A)%string)
                         (schedules d)).
  { intros parent now Hp Hpu. unfold touched. apply filter_map_if.
    intros r Hr Hc. apply String.eqb_eq in Hc.
    assert (r = parent) by (eapply unique_key_row; eauto). subst r.
    split; now apply Hmine. }
  destruct Hstep as [| s0 Ho Hfree | parent p Hin Ho | parent Hin Ho
                     | parent now ps Hin Ho Hc | parent now gs Hin Ho Hc]; simpl.
  - auto.
  - split; [|auto]. rewrite filter_app_last, (Hmine s0 Ho). apply app_nil_r.
  - split; [|auto]. unfold rewritten. apply filter_map_if.
    intros r _ Hc. apply holds_owned in Hc. destruct Hc as [_ Hc].
    split; now apply Hmine.
  - split.
    + apply filter_filter_other. intros r _ Hc. apply holds_owned in Hc.
      destruct Hc as [_ Hc]. now apply Hmine.
    + intros s Hs HsA.
      assert (Hdiff := Hother parent s Hin Hs Ho HsA).
      split; apply filter_filter_other; intros r _ Hc; simpl in Hc;
        apply String.eqb_eq in Hc; apply String.eqb_neq; congruence.
  - split; [now apply Htouch|].
    intros s Hs HsA. split; [|reflexivity].
    eapply child_step_frame; [eassumption|]. now apply (Hother parent s).
  - split; [now apply Htouch|].
    intros s Hs HsA. split; [reflexivity|].
    eapply child_step_frame; [eassumption|]. now apply (Hother parent s).
Qed.

(** X14. Nobody else can touch my schedules. Start from a store with unique
    primary keys and let any sequence of calls be made, none of them by the
    user [A] (each caller is another user, or nobody). Afterwards the
    schedules owned by [A] are exactly the rows they were, no field changed,
    none removed and none added, and for each of them the participants and the
    suggestions with its scheduleId are exactly the rows they were. *)
Theorem X14_other_users_cannot_change_mine :
  forall (A : string) (calls : list (Call * Context)) (w : World),
    wf (db w) ->
    Forall (fun cc => forall u, caller (snd cc) = Some u -> user_id u <> A) calls ->
    let w' := serve calls w in
    filter (fun s => (Schedules.ownerUserId s =? A)%string) (schedules (db w'))
    = filter (fun s => (Schedules.ownerUserId s =? A)%string) (schedules (db w))
    /\ forall s, In s (schedules (db w)) -> Schedules.ownerUserId s = A ->
         filter (fun p => (ScheduleParticipants.scheduleId p =? Schedules.id s)%string)
           (participants (db w'))
         = filter (fun p => (ScheduleParticipants.scheduleId p =? Schedules.id s)%string)
             (participants (db w))
         /\ filter (fun g => (ScheduleSuggestions.scheduleId g =? Schedules.id s)%string)
              (suggestions (db w'))
            = filter (fun g => (ScheduleSuggestions.scheduleId g =? Schedules.id s)%string)
                (suggestions (db w)).
Proof.
  intros A calls. induction calls as [|[c context] rest IH]; intros w Hwf Hothers; simpl.
  - auto.
  - inversion Hothers as [|? ? Hc Hrest]; subst. simpl in Hc.
    set (w1 := server c context w).
    assert (Hwf1 : wf (db w1)) by (apply server_keeps; [exact step_wf | exact Hwf]).
    assert (Hone :
      filter (fun s => (Schedules.ownerUserId s =? A)%string) (schedules (db w1))
      = filter (fun s => (Schedules.ownerUserId s =? A)%string) (schedules (db w))
      /\ forall s, In s (schedules (db w)) -> Schedules.ownerUserId s = A ->
           filter (fun p => (ScheduleParticipants.scheduleId p =? Schedules.id s)%string)
             (participants (db w1))
           = filter (fun p => (ScheduleParticipants.scheduleId p =? Schedules.id s)%string)
               (participants (db w))
           /\ filter (fun g => (ScheduleSuggestions.scheduleId g =? Schedules.id s)%string)
                (suggestions (db w1))
              = filter (fun g => (ScheduleSuggestions.scheduleId g =? Schedules.id s)%string)
                  (suggestions (db w))).
    { pose proof (server_step c context w) as Hb. fold w1 in Hb.
      unfold bounded_by_step in Hb. destruct (caller context) as [u|].
      - apply (@step_isolated (user_id u) A); [exact Hb | now apply Hc | apply Hwf].
      - rewrite Hb. auto. }
    destruct Hone as [Hsch Hkids].
    destruct (IH w1 Hwf1 Hrest) as [Hsch' Hkids'].
    split; [congruence|].
    intros s Hs HsA.
    assert (Hs1 : In s (schedules (db w1))).
    { assert (Hf : In s (filter (fun s => (Schedules.ownerUserId s =? A)%string)
                           (schedules (db w))))
        by (apply filter_In; split; [assumption | now apply String.eqb_eq]).
      rewrite <- Hsch in Hf. now apply filter_In in Hf. }
    destruct (Hkids s Hs HsA) as [HP HG].
    destruct (Hkids' s Hs1 HsA) as [HP' HG'].
    split; congruence.
Qed.

Lemma X14_witness :
  let calls := [(call_updateSchedule (UpdateSchedule.mk "s1" (Some "Taken") None None None),
                 signed_in "bob");
                (call_deleteSchedule (DeleteSchedule.mk "s1"), signed_in "bob");
                (call_deleteParticipant (DeleteParticipant.mk "s1" "p1"), mkContext None);
                (call_createSchedule (CreateSchedule.mk "Mine" None None None),
                 signed_in "bob")] in
  filter (fun s => (Schedules.ownerUserId s =? "alice")%string)
    (schedules (db (serve calls Sample.world)))
  = [Sample.team_sync; Sample.client_call].
Proof.
  intros calls.
  destruct (@X14_other_users_cannot_change_mine "alice" calls Sample.world wf_sample)
    as [H _].
  - unfold calls. repeat constructor; simpl; intros u Hu; inversion Hu; discriminate.
  - exact H.
Defined.

(** ** Identity of a schedule *)

Lemma step_keeps_identity (u : string) (d d' : Db) :
  step u d d' -> NoDup (map Schedules.id (schedules d)) ->
  forall s s', In s (schedules d) -> In s' (schedules d') ->
               Schedules.id s = Schedules.id s' ->
               Schedules.ownerUserId s' = Schedules.ownerUserId s
               /\ Schedules.createdAt s' = Schedules.createdAt s.
Proof.
  intros Hstep Hnd s s' Hs Hs' Hid.
  assert (Hsame : In s' (schedules d) -> Schedules.ownerUserId s' = Schedules.ownerUserId s
                                         /\ Schedules.createdAt s' = Schedules.createdAt s).
  { intros Hin. assert (s = s') by (eapply unique_key_row; eauto). subst. auto. }
  assert (Hmapped : forall (c : Schedules.row -> bool) (p : Schedules.partial),
            In s' (map (fun r => if c r then Schedules.set p r else r) (schedules d)) ->
            Schedules.ownerUserId s' = Schedules.ownerUserId s
            /\ Schedules.createdAt s' = Schedules.createdAt s).
  { intros c p Hin. apply in_map_iff in Hin. destruct Hin as (r & Hr & Hrin).
    assert (Hidr : Schedules.id r = Schedules.id s').
    { subst s'. destruct (c r); reflexivity. }
    assert (r = s) by (eapply unique_key_row; eauto; congruence). subst r.
    subst s'. destruct (c s); auto. }
  destruct Hstep as [| s0 Ho Hfree | parent p Hin Ho | parent Hin Ho
                     | parent now ps Hin Ho Hc | parent now gs Hin Ho Hc];
    simpl in Hs'.
  - auto.
  - apply in_app_or in Hs'. destruct Hs' as [Hs'|[<-|[]]]; [auto|].
    exfalso. apply Hfree. rewrite <- Hid. now apply in_map.
  - now apply (Hmapped (holds (owned (Schedules.id parent) u)) p).
  - apply filter_In in Hs'. now apply Hsame.
  - now apply (Hmapped (fun r => (Schedules.id r =? Schedules.id parent)%string)
                 (Schedules.mkPartial None None None None (Some now))).
  - now apply (Hmapped (fun r => (Schedules.id r =? Schedules.id parent)%string)
                 (Schedules.mkPartial None None None None (Some now))).
Qed.

(** X15. No call hands a schedule over. In a store with unique schedule ids,
    whatever the call, its input and its caller, a schedule row found after
    the call under the id of a row stored before it has the owner and the
    createdAt of that row. *)
Theorem X15_call_keeps_owner_and_createdAt :
  forall (c : Call) (context : Context) (w : World) (s s' : Schedules.row),
    unique_keys SchedulesT (db w) ->
    In s (schedules (db w)) ->
    In s' (schedules (db (server c context w))) ->
    Schedules.id s = Schedules.id s' ->
    Schedules.ownerUserId s' = Schedules.ownerUserId s
    /\ Schedules.createdAt s' = Schedules.createdAt s.
Proof.
  intros c context w s s' Hnd Hs Hs' Hid.
  pose proof (server_step c context w) as Hb. unfold bounded_by_step in Hb.
  destruct (caller context) as [u|].
  - eapply step_keeps_identity; eassumption.
  - rewrite Hb in Hs'. assert (s = s') by (eapply unique_key_row; eauto). subst. auto.
Qed.

Lemma X15_witness :
  let s' := Schedules.mk "s1" "alice" "Renamed" None (Some "Asia/Dubai") (Some 30)
              1000 2000 in
  In s' (schedules (db (server
                          (call_updateSchedule
                             (UpdateSchedule.mk "s1" (Some "Renamed") None None None))
                          (signed_in "alice") Sample.world)))
  /\ Schedules.ownerUserId s' = Schedules.ownerUserId Sample.team_sync
  /\ Schedules.createdAt s' = Schedules.createdAt Sample.team_sync.
Proof.
  intros s'.
  assert (Hin : In s' (schedules (db (server
                          (call_updateSchedule
                             (UpdateSchedule.mk "s1" (Some "Renamed") None None None))
                          (signed_in "alice") Sample.world))))
    by (simpl; auto).
  split; [exact Hin|].
  apply (@X15_call_keeps_owner_and_createdAt
           (call_updateSchedule (UpdateSchedule.mk "s1" (Some "Renamed") None None None))
           (signed_in "alice") Sample.world Sample.team_sync s').
  - apply (proj1 wf_sample).
  - simpl. auto.
  - exact Hin.
  - reflexivity.
Defined.

(** ** After deleteSchedule *)



(** ** The guard comes first *)

Lemma guard_first_refl (w : World) : guard_first w w.
Proof. exists []. split; [now rewrite app_nil_r | now left]. Qed.

Lemma guard_first_after (d : Db) (rest : list Stmt) (nd nu : nat) (w : World) :
  guard_first w (after d ((SELECT, TSchedules) :: rest) nd nu w).
Proof. exists ((SELECT, TSchedules) :: rest). split; [reflexivity | now right]. Qed.

Lemma guard_first_sent (w w' : World) (rest : list Stmt) :
  trace w' = ((trace w ++ [(SELECT, TSchedules)]) ++ rest)%list -> guard_first w w'.
Proof.
  intros H. exists ((SELECT, TSchedules) :: rest). split; [|now right].
  rewrite H, <- app_assoc. reflexivity.
Qed.

Lemma guard_first_stopped (w : World) :
  guard_first w (sent (SELECT, TSchedules) (db w) w).
Proof. exists [(SELECT, TSchedules)]. split; [reflexivity | now right]. Qed.

Lemma guard_first_updateSchedule (i : UpdateSchedule.shape Z) (u : string) (w : World) :
  guard_first w (snd (UpdateSchedule.handler i (signed_in u) w)).
Proof.
  unfold UpdateSchedule.handler. rewrite requireUser_signed_in. cbn [user_id].
  match goal with
  | |- context [bind (getOwnedSchedule ?sid ?uid) ?k w] =>
      destruct (guard_cases sid uid k w) as [[_ ->] | (y & _ & _ & _ & ->)]
  end.
  - apply guard_first_stopped.
  - apply guard_first_sent with (rest := [(UPDATE, TSchedules); (SELECT, TSchedules)]).
    simpl. rewrite <- !app_assoc. reflexivity.
Qed.

Lemma guard_first_deleteSchedule (i : DeleteSchedule.shape) (u : string) (w : World) :
  guard_first w (snd (DeleteSchedule.handler i (signed_in u) w)).
Proof.
  unfold DeleteSchedule.handler. rewrite requireUser_signed_in. cbn [user_id].
  match goal with
  | |- context [bind (getOwnedSchedule ?sid ?uid) ?k w] =>
      destruct (guard_cases sid uid k w) as [[_ ->] | (y & _ & _ & _ & ->)]
  end.
  - apply guard_first_stopped.
  - apply guard_first_sent with (rest := [(DELETE, TScheduleSuggestions);
                                          (DELETE, TScheduleParticipants);
                                          (DELETE, TSchedules)]).
    simpl. rewrite <- !app_assoc. reflexivity.
Qed.

Lemma guard_first_getScheduleWithDetails (i : GetScheduleWithDetails.shape) (u : string)
    (w : World) :
  guard_first w (snd (GetScheduleWithDetails.handler i (signed_in u) w)).
Proof.
  unfold GetScheduleWithDetails.handler. rewrite requireUser_signed_in. cbn [user_id].
  match goal with
  | |- context [bind (getOwnedSchedule ?sid ?uid) ?k w] =>
      destruct (guard_cases sid uid k w) as [[_ ->] | (y & _ & _ & _ & ->)]
  end.
  - apply guard_first_stopped.
  - apply guard_first_sent with (rest := [(SELECT, TScheduleParticipants);
                                          (SELECT, TScheduleSuggestions)]).
    simpl. rewrite <- !app_assoc. reflexivity.
Qed.

Lemma guard_first_upsertParticipant (i : UpsertParticipant.shape) (u : string) (w : World) :
  guard_first w (snd (UpsertParticipant.handler i (signed_in u) w)).
Proof.
  destruct (owned_row_cases (UpsertParticipant.scheduleId i) u (schedules (db w)))
    as [Hnone | (y & Hin & Hid & Ho)].
  - unfold UpsertParticipant.handler. rewrite requireUser_signed_in. cbn [user_id].
    rewrite guard_stops by exact Hnone. apply guard_first_stopped.
  - subst u. rewrite (@upsertParticipant_run w y Hin i (eq_sym Hid)).
    destruct (truthy _); [destruct (hd_error _) | destruct (key_taken _ _ _)];
      apply guard_first_after.
Qed.

Lemma guard_first_deleteParticipant (i : DeleteParticipant.shape) (u : string) (w : World) :
  guard_first w (snd (DeleteParticipant.handler i (signed_in u) w)).
Proof.
  destruct (owned_row_cases (DeleteParticipant.scheduleId i) u (schedules (db w)))
    as [Hnone | (y & Hin & Hid & Ho)].
  - unfold DeleteParticipant.handler. rewrite requireUser_signed_in. cbn [user_id].
    rewrite guard_stops by exact Hnone. apply guard_first_stopped.
  - subst u. rewrite (@deleteParticipant_run w y Hin i (eq_sym Hid)). cbv zeta.
    destruct (hd_error _); apply guard_first_after.
Qed.

Lemma guard_first_upsertSuggestion (i : UpsertSuggestion.shape Date Z) (u : string)
    (w : World) :
  guard_first w (snd (UpsertSuggestion.handler i (signed_in u) w)).
Proof.
  destruct (owned_row_cases (UpsertSuggestion.scheduleId i) u (schedules (db w)))
    as [Hnone | (y & Hin & Hid & Ho)].
  - unfold UpsertSuggestion.handler. rewrite requireUser_signed_in. cbn [user_id].
    rewrite guard_stops by exact Hnone. apply guard_first_stopped.
  - subst u. rewrite (@upsertSuggestion_run w y Hin i (eq_sym Hid)).
    destruct (truthy _); [destruct (hd_error _) | destruct (key_taken _ _ _)];
      apply guard_first_after.
Qed.

Lemma guard_first_deleteSuggestion (i : DeleteSuggestion.shape) (u : string) (w : World) :
  guard_first w (snd (DeleteSuggestion.handler i (signed_in u) w)).
Proof.
  destruct (owned_row_cases (DeleteSuggestion.scheduleId i) u (schedules (db w)))
    as [Hnone | (y & Hin & Hid & Ho)].
  - unfold DeleteSuggestion.handler. rewrite requireUser_signed_in. cbn [user_id].
    rewrite guard_stops by exact Hnone. apply guard_first_stopped.
  - subst u. rewrite (@deleteSuggestion_run w y Hin i (eq_sym Hid)). cbv zeta.
    destruct (hd_error _); apply guard_first_after.
Qed.

Lemma handler_guard_first {In Out : Type} (handler : In -> Context -> M Out)
    (i : In) (context : Context) (w : World) :
  (exists k, forall ctx, handler i ctx = bind (requireUser ctx) k) ->
  (forall u, guard_first w (snd (handler i (signed_in u) w))) ->
  guard_first w (snd (handler i context w)).
Proof.
  intros (k & Hk) Hfirst.
  destruct (caller context) as [u|] eqn:Hu.
  - assert (handler i context = handler i (signed_in (user_id u))) as ->; [|apply Hfirst].
    rewrite !Hk. now apply somebody_signed_in.
  - rewrite Hk. rewrite nobody_turned_away by exact Hu. apply guard_first_refl.
Qed.

(** X17. Ownership is checked before anything is written. For every call of
    updateSchedule, deleteSchedule, getScheduleWithDetails, upsertParticipant,
    deleteParticipant, upsertSuggestion or deleteSuggestion, whatever its
    input and caller, the statements the call sends to the store are none at
    all, or begin with the guard's SELECT on the schedules: no INSERT, UPDATE
    or DELETE ever reaches the store before that read. *)
Theorem X17_guard_read_comes_first :
  forall (c : Call) (context : Context) (w : World),
    guarded c = true ->
    exists t, trace (server c context w) = (trace w ++ t)%list
              /\ (t = [] \/ hd_error t = Some (SELECT, TSchedules)).
Proof.
  intros c context w Hg. change (guard_first w (server c context w)).
  destruct c as [raw|raw|raw|raw|raw|raw|raw|raw|raw]; try discriminate Hg;
    unfold server, world_after;
    unfold updateSchedule, deleteSchedule, getScheduleWithDetails, upsertParticipant,
      deleteParticipant, upsertSuggestion, deleteSuggestion, defineAction;
    match goal with
    | |- context [match ?input raw with _ => _ end] =>
        destruct (input raw) as [i|]; [|apply guard_first_refl]
    end;
    apply handler_guard_first; try (eexists; intros ctx; reflexivity); intros u.
  - apply guard_first_updateSchedule.
  - apply guard_first_deleteSchedule.
  - apply guard_first_getScheduleWithDetails.
  - apply guard_first_upsertParticipant.
  - apply guard_first_deleteParticipant.
  - apply guard_first_upsertSuggestion.
  - apply guard_first_deleteSuggestion.
Qed.

Lemma X17_witness :
  exists t,
    trace (server (call_deleteSchedule (DeleteSchedule.mk "s1")) (signed_in "alice")
             Sample.world) = ([] ++ t)%list
    /\ (t = [] \/ hd_error t = Some (SELECT, TSchedules)).
Proof.
  apply (@X17_guard_read_comes_first (call_deleteSchedule (DeleteSchedule.mk "s1"))
           (signed_in "alice") Sample.world).
  reflexivity.
Defined.

(** ** The schema of createSchedule *)

Lemma z_int_positive_iff (q : number) (k : Z) :
  z_int_positive q = Some k <-> (q == inject_Z k)%Q /\ 0 < k.
Proof.
  split; [apply z_int_positive_some|].
  intros [Hq Hk]. unfold z_int_positive, z_int.
  rewrite (Qred_complete _ _ Hq), Qred_inject_Z. simpl.
  apply Z.ltb_lt in Hk. now rewrite Hk.
Qed.

(** X19. The schema of createSchedule accepts an input exactly when its name
    is not empty, its baseTimeZone is not the empty string, and its
    durationMinutes, when given, is a positive integer. The accepted record
    carries the same name, description and baseTimeZone and that integer; a
    rejected input ends the call with the validation failure and an untouched
    world. *)
Theorem X19_createSchedule_schema :
  forall (raw : CreateSchedule.shape number),
    ((exists i, CreateSchedule.input raw = Some i)
     <-> CreateSchedule.name raw <> ""
         /\ CreateSchedule.baseTimeZone raw <> Some ""
         /\ (forall q, CreateSchedule.durationMinutes raw = Some q ->
                       exists k, (q == inject_Z k)%Q /\ 0 < k))
    /\ (forall i, CreateSchedule.input raw = Some i ->
          CreateSchedule.name i = CreateSchedule.name raw
          /\ CreateSchedule.description i = CreateSchedule.description raw
          /\ CreateSchedule.baseTimeZone i = CreateSchedule.baseTimeZone raw
          /\ (forall q, CreateSchedule.durationMinutes raw = Some q ->
                exists k, CreateSchedule.durationMinutes i = Some k
                          /\ (q == inject_Z k)%Q /\ 0 < k)
          /\ (CreateSchedule.durationMinutes raw = None ->
                CreateSchedule.durationMinutes i = None))
    /\ (forall context w, CreateSchedule.input raw = None ->
          createSchedule raw context w = (InputError, w)).
Proof.
  intros [name description tz duration]. unfold CreateSchedule.input, z_string_min1.
  cbn [CreateSchedule.name CreateSchedule.description CreateSchedule.baseTimeZone
       CreateSchedule.durationMinutes].
  split; [|split].
  - split.
    + intros (i & Hi).
      destruct (String.eqb_spec name "") as [|Hname]; [discriminate|].
      destruct tz as [tz|]; simpl in Hi.
      * destruct (String.eqb_spec tz "") as [|Htz]; [discriminate|].
        split; [assumption|]. split; [congruence|].
        intros q ->. simpl in Hi.
        destruct (z_int_positive q) as [k|] eqn:E; [|discriminate].
        exists k. now apply z_int_positive_iff.
      * split; [assumption|]. split; [discriminate|].
        intros q ->. simpl in Hi.
        destruct (z_int_positive q) as [k|] eqn:E; [|discriminate].
        exists k. now apply z_int_positive_iff.
    + intros (Hname & Htz & Hdur).
      apply String.eqb_neq in Hname. rewrite Hname.
      assert (Hz : exists tz', z_optional (fun s => if (s =? "")%string then None else Some s)
                                 tz = Some tz').
      { destruct tz as [tz|]; simpl; [|eauto].
        destruct (String.eqb_spec tz "") as [->|]; [congruence | eauto]. }
      destruct Hz as (tz' & ->).
      destruct duration as [q|]; simpl; [|eauto].
      destruct (Hdur q eq_refl) as (k & Hk). apply z_int_positive_iff in Hk.
      rewrite Hk. eauto.
  - intros i Hi.
    destruct (String.eqb_spec name "") as [|Hname]; [discriminate|].
    destruct (z_optional _ tz) as [tz'|] eqn:Etz; [|discriminate].
    assert (tz' = tz).
    { destruct tz as [tz|]; simpl in Etz; [|congruence].
      destruct (tz =? "")%string; congruence. }
    subst tz'.
    destruct duration as [q|]; simpl in Hi.
    + destruct (z_int_positive q) as [k|] eqn:E; [|discriminate].
      inversion Hi; subst i. simpl. repeat split; try reflexivity; [|discriminate].
      intros q' Hq'. inversion Hq'; subst q'. exists k.
      split; [reflexivity|]. now apply z_int_positive_iff.
    + inversion Hi; subst i. simpl. repeat split; try reflexivity. discriminate.
  - intros context w H. unfold createSchedule, defineAction, CreateSchedule.input,
      z_string_min1. simpl. now rewrite H.
Qed.

Lemma X19_witness :
  (exists i, CreateSchedule.input (CreateSchedule.mk "Standup" None (Some "UTC")
                                     (Some (30 # 1)%Q)) = Some i)
  /\ createSchedule (CreateSchedule.mk "" None None None) (signed_in "bob") Sample.world
     = (InputError, Sample.world).
Proof.
  split.
  - apply (proj1 (X19_createSchedule_schema
                    (CreateSchedule.mk "Standup" None (Some "UTC") (Some (30 # 1)%Q)))).
    simpl. split; [discriminate|]. split; [discriminate|].
    intros q Hq. inversion Hq; subst q. exists 30. split; [reflexivity | lia].
  - apply (proj2 (proj2 (X19_createSchedule_schema (CreateSchedule.mk "" None None None)))).
    reflexivity.
Defined.
